(** * The xv6 console line discipline (kernel/console.c)

    A shallow embedding of [consputc], [consoleintr] and [consoleread]:
    the input ring [cons] with its three cursors, the editing rules of
    the interrupt handler and the line-at-a-time reader. *)

From Stdlib Require Import ZArith Lia List Bool.
From stdpp Require Import base list.
Import ListNotations.
Open Scope Z_scope.

(** ** Machine integers and characters *)

Definition UINT_MOD : Z := 4294967296.            (* 2^32, [uint] *)
Definition UINT64_MOD : Z := 18446744073709551616. (* 2^64, [uint64] *)

(** Conversion to [uint]: arithmetic on the cursors wraps modulo 2^32. *)
Definition uint (x : Z) : Z := x mod UINT_MOD.

(** Conversion to [uint64], the type of [dst]. *)
Definition uint64 (x : Z) : Z := x mod UINT64_MOD.

(** Conversion of a [uint] to [int] (two's complement), as done by
    [return target - n]. *)
Definition to_int (x : Z) : Z :=
  if uint x <? 2147483648 then uint x else uint x - UINT_MOD.

(** Conversion of an [int] to [char] when it is stored in [cons.buf];
    plain [char] is unsigned on RISC-V, so a byte read back from the
    buffer is in 0..255. *)
Definition to_char (c : Z) : Z := c mod 256.

Definition INPUT_BUF_SIZE : Z := 128.
Definition BACKSPACE : Z := 256.                   (* 0x100 *)

(** [#define C(x) ((x)-'@')], with ['@'] = 64. *)
Definition C (x : Z) : Z := x - 64.

Definition chr_D : Z := 68.   (* 'D' *)
Definition chr_H : Z := 72.   (* 'H' *)
Definition chr_P : Z := 80.   (* 'P' *)
Definition chr_U : Z := 85.   (* 'U' *)
Definition chr_NL : Z := 10.  (* '\n' *)
Definition chr_CR : Z := 13.  (* '\r' *)
Definition chr_DEL : Z := 127. (* '\x7f' *)
Definition chr_BS : Z := 8.   (* '\b' *)
Definition chr_SP : Z := 32.  (* ' ' *)

(** ** Effects *)

(** Modelled from the spec: [uartputc_sync], [procdump], [wakeup],
    [either_copyout], [killed] and [sleep] are defined outside
    kernel/console.c; the spec (sections 1 and 6) treats them as opaque
    services the console calls into.  Each call is recorded as an event
    of the machine's trace, in program order; stores into [cons.buf] are
    recorded too, so that the order of an echo and of the store that
    follows it can be read off the trace. *)
Inductive event : Type :=
| EvUart (c : Z)                       (* uartputc_sync(c) *)
| EvProcdump                           (* procdump() *)
| EvWakeup                             (* wakeup(&cons.r) *)
| EvStore (i c : Z)                    (* cons.buf[i] = c *)
| EvCopyout (user_dst dst c : Z)       (* either_copyout(..) == 0 *)
| EvCopyFail (user_dst dst c : Z).     (* either_copyout(..) == -1 *)

(** ** The console ring: [struct { ... } cons] *)
Record cons_t : Type := mkCons {
  buf : list Z;   (* char buf[INPUT_BUF_SIZE] *)
  r : Z;          (* Read index *)
  w : Z;          (* Write index *)
  e : Z           (* Edit index *)
}.

Record machine : Type := mkMachine {
  cons : cons_t;
  trace : list event
}.

(** [cons] has static storage: the buffer and the cursors start at zero. *)
Definition cons_init : cons_t :=
  mkCons (replicate (Z.to_nat INPUT_BUF_SIZE) 0) 0 0 0.

Definition machine_init : machine := mkMachine cons_init [].

Definition set_r (v : Z) (m : machine) : machine :=
  mkMachine (mkCons (buf (cons m)) v (w (cons m)) (e (cons m))) (trace m).

Definition set_w (v : Z) (m : machine) : machine :=
  mkMachine (mkCons (buf (cons m)) (r (cons m)) v (e (cons m))) (trace m).

Definition set_e (v : Z) (m : machine) : machine :=
  mkMachine (mkCons (buf (cons m)) (r (cons m)) (w (cons m)) v) (trace m).

Definition emit (ev : event) (m : machine) : machine :=
  mkMachine (cons m) (trace m ++ [ev]).

(** [cons.buf[i % INPUT_BUF_SIZE]]; the index is always inside the
    array, the default only makes the function total on lists of another
    length. *)
Definition getbuf (m : machine) (i : Z) : Z :=
  default 0 (buf (cons m) !! Z.to_nat (i mod INPUT_BUF_SIZE)).

(** [cons.buf[i % INPUT_BUF_SIZE] = c] *)
Definition setbuf (i c : Z) (m : machine) : machine :=
  emit (EvStore (i mod INPUT_BUF_SIZE) (to_char c))
    (mkMachine
       (mkCons (<[Z.to_nat (i mod INPUT_BUF_SIZE) := to_char c]> (buf (cons m)))
               (r (cons m)) (w (cons m)) (e (cons m)))
       (trace m)).

Definition uartputc_sync (c : Z) (m : machine) : machine := emit (EvUart c) m.
Definition procdump (m : machine) : machine := emit EvProcdump m.
Definition wakeup (m : machine) : machine := emit EvWakeup m.

(** ** [consputc] *)
Definition consputc (c : Z) (m : machine) : machine :=
  if c =? BACKSPACE then
    uartputc_sync chr_BS (uartputc_sync chr_SP (uartputc_sync chr_BS m))
  else
    uartputc_sync c m.

(** ** [consoleintr] *)

(** The kill-line loop
    [while(cons.e != cons.w && cons.buf[(cons.e-1) % INPUT_BUF_SIZE] != '\n')].
    Every iteration brings [cons.e] one step closer to [cons.w], so the
    distance [cons.e - cons.w] (in [uint]) bounds the iterations. *)
Fixpoint kill_loop (fuel : nat) (m : machine) : machine :=
  match fuel with
  | O => m
  | S k =>
      if negb (e (cons m) =? w (cons m))
         && negb (getbuf m (uint (e (cons m) - 1)) =? chr_NL)
      then kill_loop k (consputc BACKSPACE (set_e (uint (e (cons m) - 1)) m))
      else m
  end.

Definition consoleintr (c : Z) (m : machine) : machine :=
  if c =? C chr_P then                       (* Print process list. *)
    procdump m
  else if c =? C chr_U then                  (* Kill line. *)
    kill_loop (Z.to_nat (uint (e (cons m) - w (cons m)))) m
  else if (c =? C chr_H) || (c =? chr_DEL) then   (* Backspace, Delete *)
    if negb (e (cons m) =? w (cons m))
    then consputc BACKSPACE (set_e (uint (e (cons m) - 1)) m)
    else m
  else
    if negb (c =? 0) && (uint (e (cons m) - r (cons m)) <? INPUT_BUF_SIZE) then
      let c := if c =? chr_CR then chr_NL else c in
      (* echo back to the user. *)
      let m := consputc c m in
      (* store for consumption by consoleread(). *)
      let m := set_e (uint (e (cons m) + 1)) (setbuf (e (cons m)) c m) in
      if (c =? chr_NL) || (c =? C chr_D)
         || (uint (e (cons m) - r (cons m)) =? INPUT_BUF_SIZE)
      then wakeup (set_w (e (cons m)) m)
      else m
    else m.

(** ** [consoleread] *)

(** How one atomic run of the reader (from taking the lock to releasing
    it) ends: it returns to the caller, or it sleeps on [&cons.r] with
    its locals [n], [dst] and [target] saved. *)
Inductive outcome : Type :=
| Returned (ret : Z)
| Asleep (n dst target : Z).

Inductive iter : Type :=
| Next (m : machine) (n dst : Z)     (* go round the [while(n > 0)] loop *)
| Exit (m : machine) (o : outcome).  (* [break], [return -1] or [sleep] *)

Section Reader.

(** Modelled from the spec: the answers of [killed(myproc())] and of
    [either_copyout] (both outside kernel/console.c) during the run;
    the latter may depend on the destination. *)
Variable killed : bool.
Variable either_copyout : Z -> Z -> bool.

(** [return target - n] *)
Definition read_ret (target n : Z) : Z := to_int (uint (target - uint n)).

(** The body of [while(n > 0)]. *)
Definition read_body (user_dst dst n target : Z) (m : machine) : iter :=
  if r (cons m) =? w (cons m) then
    if killed then Exit m (Returned (-1))
    else Exit m (Asleep n dst target)
  else
    let c := getbuf m (r (cons m)) in
    let m := set_r (uint (r (cons m) + 1)) m in
    if c =? C chr_D then                      (* end-of-file *)
      let m := if uint n <? target
               then set_r (uint (r (cons m) - 1)) m else m in
      Exit m (Returned (read_ret target n))
    else if negb (either_copyout user_dst dst) then
      Exit (emit (EvCopyFail user_dst dst c) m) (Returned (read_ret target n))
    else
      let m := emit (EvCopyout user_dst dst c) m in
      let dst := uint64 (dst + 1) in
      let n := n - 1 in
      if c =? chr_NL then Exit m (Returned (read_ret target n))
      else Next m n dst.

(** The loop; [None] only when the fuel runs out, which
    [Z.to_nat n] never does. *)
Fixpoint read_loop (fuel : nat) (user_dst dst n target : Z) (m : machine)
  : option (machine * outcome) :=
  if n <=? 0 then Some (m, Returned (read_ret target n))
  else
    match fuel with
    | O => None
    | S k =>
        match read_body user_dst dst n target m with
        | Exit m' o => Some (m', o)
        | Next m' n' dst' => read_loop k user_dst dst' n' target m'
        end
    end.

(** A call [consoleread(user_dst, dst, n)], up to its return or its
    first sleep. *)
Definition consoleread (user_dst dst n : Z) (m : machine)
  : option (machine * outcome) :=
  read_loop (Z.to_nat n) user_dst dst n (uint n) m.

(** A reader woken from [sleep] takes the lock again and tests
    [cons.r == cons.w] anew, with the locals it went to sleep with. *)
Definition consoleread_wake (user_dst dst n target : Z) (m : machine)
  : option (machine * outcome) :=
  read_loop (Z.to_nat n) user_dst dst n target m.

End Reader.

(** ** Driving the console *)

(** The producer path: [consoleintr] called once per character. *)
Definition pushes (cs : list Z) (m : machine) : machine :=
  fold_left (fun m c => consoleintr c m) cs m.

(** The bytes handed to the destination, in order. *)
Fixpoint delivered (evs : list event) : list Z :=
  match evs with
  | [] => []
  | EvCopyout _ _ c :: evs' => c :: delivered evs'
  | _ :: evs' => delivered evs'
  end.

Definition copy_always : Z -> Z -> bool := fun _ _ => true.

(** ** Reachable states

    The console starts in [machine_init]; the interrupt handler and the
    reader then run in any order, each holding [cons.lock] from start to
    end or to its [sleep].  A sleeping reader may be woken in any later
    state; [reach_wake] lets it resume with any saved locals, which
    covers every reader that really went to sleep. *)
Inductive reachable : machine -> Prop :=
| reach_init : reachable machine_init
| reach_intr c m :
    reachable m -> reachable (consoleintr c m)
| reach_read killed copyout user_dst dst n m m' o :
    reachable m ->
    consoleread killed copyout user_dst dst n m = Some (m', o) ->
    reachable m'
| reach_wake killed copyout user_dst dst n target m m' o :
    reachable m ->
    consoleread_wake killed copyout user_dst dst n target m = Some (m', o) ->
    reachable m'.

(** The ordering of the cursors as plain integers. *)
Definition cursors_ordered (c : cons_t) : Prop :=
  r c <= w c /\ w c <= e c /\ e c <= r c + INPUT_BUF_SIZE.

(** The ordering of the cursors as the code tests it, on distances
    computed in [uint]. *)
Definition cursors_ordered_uint (c : cons_t) : Prop :=
  uint (w c - r c) <= uint (e c - r c) /\ uint (e c - r c) <= INPUT_BUF_SIZE.

Definition in_uint (x : Z) : Prop := 0 <= x < UINT_MOD.

(** What every reachable ring satisfies: a full-size buffer, cursors
    that are [uint] values, and [cons.w] no further ahead of [cons.r]
    than [cons.e], which is at most [INPUT_BUF_SIZE] ahead. *)
Definition ring_ok (c : cons_t) : Prop :=
  length (buf c) = Z.to_nat INPUT_BUF_SIZE /\
  in_uint (r c) /\ in_uint (w c) /\ in_uint (e c) /\
  uint (w c - r c) + uint (e c - w c) <= INPUT_BUF_SIZE.

(** ** Auxiliary notions used to state the properties *)

(** The characters handled by the [default:] branch of the switch. *)
Definition ordinary (c : Z) : bool :=
  negb ((c =? C chr_P) || (c =? C chr_U) || (c =? C chr_H) || (c =? chr_DEL)).

(** [c = (c == '\r') ? '\n' : c] *)
Definition normalize (c : Z) : Z := if c =? chr_CR then chr_NL else c.

(** The test that decides the commit, on the machine after the store. *)
Definition commits (c : Z) (m : machine) : bool :=
  (c =? chr_NL) || (c =? C chr_D)
  || (uint (e (cons m) - r (cons m)) =? INPUT_BUF_SIZE).

(** The store [cons.buf[cons.e++ % INPUT_BUF_SIZE] = c]. *)
Definition append (c : Z) (m : machine) : machine :=
  set_e (uint (e (cons m) + 1)) (setbuf (e (cons m)) c m).

(** The events of [consputc(c)]. *)
Definition echo (c : Z) : list event :=
  if c =? BACKSPACE then [EvUart chr_BS; EvUart chr_SP; EvUart chr_BS]
  else [EvUart c].

(** The bytes sent to the uart, in order. *)
Fixpoint uart_bytes (evs : list event) : list Z :=
  match evs with
  | [] => []
  | EvUart c :: evs' => c :: uart_bytes evs'
  | _ :: evs' => uart_bytes evs'
  end.

(** The commit test in terms of the machine before the character. *)
Definition commits_after (c : Z) (m : machine) : bool :=
  (c =? chr_NL) || (c =? C chr_D)
  || (uint (uint (e (cons m) + 1) - r (cons m)) =? INPUT_BUF_SIZE).

(** [visible l m]: the bytes [l] are the next ones [consoleread] pops,
    each found with [cons.r != cons.w]. *)
Fixpoint visible (l : list Z) (m : machine) : Prop :=
  match l with
  | [] => True
  | c :: l' =>
      r (cons m) <> w (cons m) /\ getbuf m (r (cons m)) = c /\
      visible l' (set_r (uint (r (cons m) + 1)) m)
  end.

(** [either_copyout] accepts one byte at [dst], [dst+1], ... for each
    byte of [l]. *)
Fixpoint copy_ok (copyout : Z -> Z -> bool) (user_dst dst : Z) (l : list Z) : Prop :=
  match l with
  | [] => True
  | _ :: l' =>
      copyout user_dst dst = true /\ copy_ok copyout user_dst (uint64 (dst + 1)) l'
  end.

(** [dst] after [k] increments. *)
Fixpoint dst_after (k : nat) (dst : Z) : Z :=
  match k with
  | O => dst
  | S k' => dst_after k' (uint64 (dst + 1))
  end.

(** The machine after the bytes [l] were popped and copied out. *)
Fixpoint drain (user_dst dst : Z) (l : list Z) (m : machine) : machine :=
  match l with
  | [] => m
  | c :: l' =>
      drain user_dst (uint64 (dst + 1)) l'
        (emit (EvCopyout user_dst dst c) (set_r (uint (r (cons m) + 1)) m))
  end.

(** A byte that neither ends the line nor marks end-of-file. *)
Definition inline (c : Z) : Prop := c <> chr_NL /\ c <> C chr_D.

(** The copy-outs of the bytes [l] to [dst], [dst+1], ... *)
Fixpoint copy_events (user_dst dst : Z) (l : list Z) : list event :=
  match l with
  | [] => []
  | c :: l' => EvCopyout user_dst dst c :: copy_events user_dst (uint64 (dst + 1)) l'
  end.

Definition INT_MAX : Z := 2147483647.

Definition copy_never : Z -> Z -> bool := fun _ _ => false.

(** [read_call user_dst m dst n target evs m' ret]: a reader with the
    locals [n], [dst], [target] runs from [m]; it may sleep any number
    of times, being woken each time in whatever machine [m2] the
    interrupt handler and other readers have produced meanwhile; it
    finally returns [ret] in [m'], and [evs] are the events of its own
    runs, in order. *)
Inductive read_call (user_dst : Z)
  : machine -> Z -> Z -> Z -> list event -> machine -> Z -> Prop :=
| call_return killed copyout m dst n target m' ret evs :
    consoleread_wake killed copyout user_dst dst n target m
      = Some (m', Returned ret) ->
    trace m' = trace m ++ evs ->
    read_call user_dst m dst n target evs m' ret
| call_sleep killed copyout m dst n target m1 n1 dst1 target1 evs1
             m2 evs2 m' ret :
    consoleread_wake killed copyout user_dst dst n target m
      = Some (m1, Asleep n1 dst1 target1) ->
    trace m1 = trace m ++ evs1 ->
    read_call user_dst m2 dst1 n1 target1 evs2 m' ret ->
    read_call user_dst m dst n target (evs1 ++ evs2) m' ret.

(** No newline is copied out. *)
Fixpoint newline_free (evs : list event) : Prop :=
  match evs with
  | [] => True
  | EvCopyout _ _ c :: evs' => c <> chr_NL /\ newline_free evs'
  | _ :: evs' => newline_free evs'
  end.

(** A newline is copied out last or not at all. *)
Fixpoint newline_last (evs : list event) : Prop :=
  match evs with
  | [] => True
  | EvCopyout _ _ c :: evs' => (c = chr_NL -> evs' = []) /\ newline_last evs'
  | _ :: evs' => newline_last evs'
  end.

(** A byte the uart delivers that is stored as typed and ends no line:
    not NUL, not one of the editing keys, not a newline or carriage
    return, not Ctrl-D. *)
Definition plain (c : Z) : bool :=
  (0 <? c) && (c <? 256) && ordinary c
  && negb (c =? chr_NL) && negb (c =? chr_CR) && negb (c =? C chr_D).

(** How many times [wakeup(&cons.r)] was called; the commit
    [cons.w = cons.e] and the wakeup always go together. *)
Fixpoint wakeups (evs : list event) : nat :=
  match evs with
  | [] => O
  | EvWakeup :: evs' => S (wakeups evs')
  | _ :: evs' => wakeups evs'
  end.

(** ** [consolewrite] *)

Section Writer.

(** Modelled from the spec: [either_copyin] (outside kernel/console.c)
    gives the byte at a source address, or [None] where the code sees
    -1; [uartputc], also outside, is modelled by the list of the bytes
    handed to it, in order. *)
Variable either_copyin : Z -> Z -> option Z.

(** The loop [for(i = 0; i < n; i++)], from [i] on, with the bytes
    [sent] so far; [None] only when the fuel runs out. *)
Fixpoint write_loop (fuel : nat) (user_src src i n : Z) (sent : list Z)
  : option (Z * list Z) :=
  if i <? n then
    match fuel with
    | O => None
    | S k =>
        match either_copyin user_src (uint64 (src + i)) with
        | None => Some (i, sent)                       (* break *)
        | Some c => write_loop k user_src src (i + 1) n (sent ++ [c])
        end
    end
  else Some (i, sent).

(** [consolewrite(user_src, src, n)]: the value returned and the bytes
    given to [uartputc]. *)
Definition consolewrite (user_src src n : Z) : option (Z * list Z) :=
  write_loop (Z.to_nat n) user_src src 0 n [].

End Writer.

(** ** The ring seen as a queue *)

(** The [len] bytes stored from cursor value [from] on. *)
Definition window (m : machine) (from : Z) (len : nat) : list Z :=
  map (fun i => getbuf m (uint (from + Z.of_nat i))) (seq 0 len).

(** The bytes between [cons.r] and [cons.e]: typed and not yet read. *)
Definition unread (m : machine) : list Z :=
  window m (r (cons m)) (Z.to_nat (uint (e (cons m) - r (cons m)))).

(** The bytes between [cons.r] and [cons.w]: what a reader may take. *)
Definition committed (m : machine) : list Z :=
  window m (r (cons m)) (Z.to_nat (uint (w (cons m) - r (cons m)))).

(** The bytes between [cons.w] and [cons.e]: the line being edited. *)
Definition uncommitted (m : machine) : list Z :=
  window m (w (cons m)) (Z.to_nat (uint (e (cons m) - w (cons m)))).

(** The states reached when the interrupt handler is only given bytes
    (0..255), as a uart delivers them. *)
Inductive byte_reachable : machine -> Prop :=
| breach_init : byte_reachable machine_init
| breach_intr c m :
    0 <= c < 256 -> byte_reachable m -> byte_reachable (consoleintr c m)
| breach_read killed copyout user_dst dst n m m' o :
    byte_reachable m ->
    consoleread killed copyout user_dst dst n m = Some (m', o) ->
    byte_reachable m'
| breach_wake killed copyout user_dst dst n target m m' o :
    byte_reachable m ->
    consoleread_wake killed copyout user_dst dst n target m = Some (m', o) ->
    byte_reachable m'.

(** The echo of [k] erased characters. *)
Fixpoint erase_echo (k : nat) : list event :=
  match k with
  | O => []
  | S k' => echo BACKSPACE ++ erase_echo k'
  end.



(** The events a reader produces: the outcomes of [either_copyout]. *)
Definition copy_event (ev : event) : Prop :=
  match ev with
  | EvCopyout _ _ _ | EvCopyFail _ _ _ => True
  | _ => False
  end.

(** * Properties *)

Ltac uint_arith :=
  unfold in_uint, uint, uint64, INPUT_BUF_SIZE, UINT_MOD in *;
  Z.div_mod_to_equations; lia.

Ltac break_machine m :=
  let b := fresh "b" in let rr := fresh "rr" in let ww := fresh "ww" in
  let ee := fresh "ee" in let tr := fresh "tr" in
  destruct m as [[b rr ww ee] tr].

Lemma cons_consputc c m : cons (consputc c m) = cons m.
Proof. unfold consputc. destruct (c =? BACKSPACE); reflexivity. Qed.

Lemma ring_ok_init : ring_ok cons_init.
Proof.
  unfold ring_ok, cons_init, in_uint; simpl.
  repeat split; try reflexivity; try discriminate.
Qed.

Lemma kill_loop_ring_ok fuel : forall m,
  ring_ok (cons m) -> ring_ok (cons (kill_loop fuel m)).
Proof.
  induction fuel as [|k IH]; intros m Hm; simpl; [exact Hm|].
  destruct (negb (e (cons m) =? w (cons m))) eqn:Hew; simpl; [|exact Hm].
  destruct (negb (getbuf m (uint (e (cons m) - 1)) =? chr_NL)); [|exact Hm].
  apply IH. rewrite cons_consputc.
  apply negb_true_iff, Z.eqb_neq in Hew.
  break_machine m; unfold ring_ok in *; simpl in *.
  destruct Hm as (Hl & Hr & Hw & He & Hd).
  repeat split; try assumption; uint_arith.
Qed.

Lemma consoleintr_ring_ok c m :
  ring_ok (cons m) -> ring_ok (cons (consoleintr c m)).
Proof.
  intros Hm. unfold consoleintr.
  destruct (c =? C chr_P); [exact Hm|].
  destruct (c =? C chr_U); [now apply kill_loop_ring_ok|].
  destruct ((c =? C chr_H) || (c =? chr_DEL)).
  - destruct (negb (e (cons m) =? w (cons m))) eqn:Hew; [|exact Hm].
    rewrite cons_consputc.
    apply negb_true_iff, Z.eqb_neq in Hew.
    break_machine m; unfold ring_ok in *; simpl in *.
    destruct Hm as (Hl & Hr & Hw & He & Hd).
    repeat split; try assumption; uint_arith.
  - destruct (negb (c =? 0) && _) eqn:Hacc; [|exact Hm].
    apply andb_true_iff in Hacc as [_ Hroom]. apply Z.ltb_lt in Hroom.
    set (c' := if c =? chr_CR then chr_NL else c).
    rewrite !cons_consputc in *.
    match goal with |- context [if ?b then _ else _] => destruct b end;
      break_machine m; unfold ring_ok in *; simpl in *;
      rewrite ?cons_consputc; simpl;
      destruct Hm as (Hl & Hr & Hw & He & Hd);
      rewrite ?length_insert;
      repeat split; try assumption; uint_arith.
Qed.

Section ReaderFacts.

Variable killed : bool.
Variable either_copyout : Z -> Z -> bool.

Lemma read_body_ring_ok user_dst dst n target m :
  ring_ok (cons m) ->
  match read_body killed either_copyout user_dst dst n target m with
  | Next m' _ _ => ring_ok (cons m')
  | Exit m' _ => ring_ok (cons m')
  end.
Proof.
  intros Hm. unfold read_body.
  destruct (r (cons m) =? w (cons m)) eqn:Hrw.
  { destruct killed; exact Hm. }
  apply Z.eqb_neq in Hrw.
  assert (Hpop : ring_ok (cons (set_r (uint (r (cons m) + 1)) m))).
  { break_machine m; unfold ring_ok in *; simpl in *.
    destruct Hm as (Hl & Hr & Hw & He & Hd).
    repeat split; try assumption; uint_arith. }
  destruct (getbuf m (r (cons m)) =? C chr_D).
  - destruct (uint n <? target); [|exact Hpop].
    break_machine m; unfold ring_ok in *; simpl in *.
    destruct Hm as (Hl & Hr & Hw & He & Hd).
    repeat split; try assumption; uint_arith.
  - destruct (negb (either_copyout user_dst dst)); [exact Hpop|].
    destruct (getbuf m (r (cons m)) =? chr_NL); exact Hpop.
Qed.

Lemma read_loop_ring_ok fuel : forall user_dst dst n target m m' o,
  ring_ok (cons m) ->
  read_loop killed either_copyout fuel user_dst dst n target m = Some (m', o) ->
  ring_ok (cons m').
Proof.
  induction fuel as [|k IH]; intros user_dst dst n target m m' o Hm Hrun;
    simpl in Hrun; destruct (n <=? 0); try discriminate;
    try (injection Hrun as <- _; exact Hm).
  pose proof (read_body_ring_ok user_dst dst n target m Hm) as Hb.
  destruct (read_body killed either_copyout user_dst dst n target m)
    as [m1 n1 dst1 | m1 o1].
  - eapply IH; eassumption.
  - injection Hrun as <- _. exact Hb.
Qed.

(** [Z.to_nat n] iterations are enough: the loop never runs out of fuel. *)
Lemma read_loop_total fuel : forall user_dst dst n target m,
  (Z.to_nat n <= fuel)%nat ->
  exists m' o,
    read_loop killed either_copyout fuel user_dst dst n target m = Some (m', o).
Proof.
  induction fuel as [|k IH]; intros user_dst dst n target m Hfuel; simpl;
    destruct (n <=? 0) eqn:Hn; eauto.
  - apply Z.leb_gt in Hn. lia.
  - apply Z.leb_gt in Hn.
    unfold read_body.
    repeat match goal with
           | |- context [if ?b then _ else _] => destruct b
           end; eauto; apply IH; lia.
Qed.

Lemma consoleread_total user_dst dst n m :
  exists m' o,
    consoleread killed either_copyout user_dst dst n m = Some (m', o).
Proof. apply read_loop_total. lia. Qed.

End ReaderFacts.

Lemma reachable_ring_ok m : reachable m -> ring_ok (cons m).
Proof.
  induction 1 as [| c m _ IH | k cp u d n m m' o _ IH Hrun
                  | k cp u d n t m m' o _ IH Hrun].
  - exact ring_ok_init.
  - now apply consoleintr_ring_ok.
  - eapply read_loop_ring_ok; eassumption.
  - eapply read_loop_ring_ok; eassumption.
Qed.

Lemma ring_ok_ordered_uint c : ring_ok c -> cursors_ordered_uint c.
Proof.
  destruct c as [b rr ww ee]; unfold ring_ok, cursors_ordered_uint; simpl.
  intros (_ & Hr & Hw & He & Hd). split; uint_arith.
Qed.

Lemma ring_ok_ordered c :
  ring_ok c -> r c + INPUT_BUF_SIZE < UINT_MOD -> cursors_ordered c.
Proof.
  destruct c as [b rr ww ee]; unfold ring_ok, cursors_ordered; simpl.
  intros (_ & Hr & Hw & He & Hd) Hroom. repeat split; uint_arith.
Qed.

(** ** The branches of [consoleintr] *)

Lemma consoleintr_accept c m :
  ordinary c = true -> c <> 0 ->
  uint (e (cons m) - r (cons m)) < INPUT_BUF_SIZE ->
  consoleintr c m =
    let m1 := append (normalize c) (consputc (normalize c) m) in
    if commits (normalize c) m1 then wakeup (set_w (e (cons m1)) m1) else m1.
Proof.
  unfold ordinary, consoleintr. intros Hord Hc Hroom.
  apply negb_true_iff in Hord.
  apply orb_false_iff in Hord as [Hord Hdel].
  apply orb_false_iff in Hord as [Hord Hh].
  apply orb_false_iff in Hord as [Hp Hu].
  rewrite Hp, Hu, Hh, Hdel. simpl.
  apply Z.eqb_neq in Hc. apply Z.ltb_lt in Hroom.
  rewrite Hc, Hroom. reflexivity.
Qed.

Lemma consoleintr_drop c m :
  ordinary c = true ->
  c = 0 \/ INPUT_BUF_SIZE <= uint (e (cons m) - r (cons m)) ->
  consoleintr c m = m.
Proof.
  unfold ordinary, consoleintr. intros Hord Hrej.
  apply negb_true_iff in Hord.
  apply orb_false_iff in Hord as [Hord Hdel].
  apply orb_false_iff in Hord as [Hord Hh].
  apply orb_false_iff in Hord as [Hp Hu].
  rewrite Hp, Hu, Hh, Hdel. simpl.
  destruct Hrej as [-> | Hfull]; [reflexivity|].
  apply Z.ltb_ge in Hfull. rewrite Hfull, andb_false_r. reflexivity.
Qed.

(** ** The iterations of [consoleread] *)

(** An iteration that finds a byte other than the end-of-file marker
    and copies it out. *)
Lemma read_body_deliver killed copyout user_dst dst n target m :
  r (cons m) <> w (cons m) ->
  getbuf m (r (cons m)) <> C chr_D ->
  copyout user_dst dst = true ->
  read_body killed copyout user_dst dst n target m =
    let c := getbuf m (r (cons m)) in
    let m' := emit (EvCopyout user_dst dst c) (set_r (uint (r (cons m) + 1)) m) in
    if c =? chr_NL then Exit m' (Returned (read_ret target (n - 1)))
    else Next m' (n - 1) (uint64 (dst + 1)).
Proof.
  intros Hrw Hc Hcopy. unfold read_body.
  apply Z.eqb_neq in Hrw. apply Z.eqb_neq in Hc.
  rewrite Hrw, Hc, Hcopy. reflexivity.
Qed.

(** An iteration that finds the end-of-file marker. *)
Lemma read_body_eof killed copyout user_dst dst n target m :
  r (cons m) <> w (cons m) ->
  getbuf m (r (cons m)) = C chr_D ->
  read_body killed copyout user_dst dst n target m =
    Exit (if uint n <? target
          then set_r (uint (uint (r (cons m) + 1) - 1)) (set_r (uint (r (cons m) + 1)) m)
          else set_r (uint (r (cons m) + 1)) m)
         (Returned (read_ret target n)).
Proof.
  intros Hrw Hc. unfold read_body.
  apply Z.eqb_neq in Hrw. rewrite Hrw, Hc. reflexivity.
Qed.

(** ** Wrap-around of the cursors *)

(** One line typed and read: from a ring with all three cursors at [k],
    typing a newline and reading one byte moves them all to [k + 1] in
    [uint]. *)
Lemma line_cycle m :
  ring_ok (cons m) ->
  r (cons m) = e (cons m) -> w (cons m) = e (cons m) ->
  exists m',
    consoleread false copy_always 0 0 1 (consoleintr chr_NL m)
      = Some (m', Returned 1) /\
    r (cons m') = uint (e (cons m) + 1) /\
    w (cons m') = uint (e (cons m) + 1) /\
    e (cons m') = uint (e (cons m) + 1).
Proof.
  intros Hok Hr Hw.
  assert (Hok' := consoleintr_ring_ok chr_NL m Hok).
  rewrite consoleintr_accept in * by
    (try reflexivity; try discriminate; rewrite Hr, Z.sub_diag; reflexivity).
  cbn zeta in *. change (normalize chr_NL) with chr_NL in *.
  change (commits chr_NL ?x) with true in *. cbv iota in *.
  set (m1 := append chr_NL (consputc chr_NL m)) in *.
  assert (He1 : e (cons m1) = uint (e (cons m) + 1)).
  { unfold m1, append. simpl. rewrite ?cons_consputc. reflexivity. }
  assert (Hr1 : r (cons m1) = r (cons m)).
  { unfold m1, append. simpl. rewrite ?cons_consputc. reflexivity. }
  assert (Hg : getbuf (wakeup (set_w (e (cons m1)) m1)) (r (cons m)) = chr_NL).
  { unfold m1, append, getbuf. simpl. rewrite ?cons_consputc. simpl. rewrite Hr.
    rewrite list_lookup_insert_eq; [reflexivity|].
    destruct Hok as (Hl & _). rewrite Hl. unfold INPUT_BUF_SIZE.
    assert (0 <= e (cons m) mod 128 < 128) by (apply Z.mod_pos_bound; lia).
    lia. }
  unfold consoleread. change (Z.to_nat 1) with 1%nat. simpl read_loop.
  rewrite read_body_deliver; simpl cons; simpl r; simpl w;
    rewrite ?Hr1, <- ?He1, ?Hg.
  - cbn zeta. rewrite <- ?He1, ?Hg. simpl.
    eexists; split; [reflexivity|]. simpl. rewrite Hr. auto.
  - rewrite He1, Hr. destruct Hok as (_ & _ & _ & He & _). uint_arith.
  - discriminate.
  - reflexivity.
Qed.

(** Every [uint] value is reached by all three cursors at once. *)
Lemma cursors_reach_any k :
  0 <= k -> k < UINT_MOD ->
  exists m, reachable m /\
    r (cons m) = k /\ w (cons m) = k /\ e (cons m) = k.
Proof.
  intros Hk. pattern k. apply natlike_ind; [| |exact Hk]; clear k Hk.
  - intros _. exists machine_init. split; [constructor|]. auto.
  - intros k Hk IH Hlt.
    destruct IH as (m & Hreach & Hr & Hw & He); [lia|].
    destruct (line_cycle m) as (m' & Hrun & Hr' & Hw' & He').
    + now apply reachable_ring_ok.
    + congruence.
    + congruence.
    + exists m'. split.
      * eapply reach_read; [|exact Hrun]. now apply reach_intr.
      * rewrite Hr', Hw', He', He. unfold Z.succ.
        repeat split; unfold uint; apply Z.mod_small; lia.
Qed.

(** C1, as stated, fails: after 2^32 - 1 lines typed and read, one more
    newline wraps [cons.w] and [cons.e] to 0 while [cons.r] is still
    2^32 - 1, so [cons.r <= cons.w] is false in a reachable state. *)
Lemma C1_counterexample :
  ~ (forall m, reachable m -> cursors_ordered (cons m)).
Proof.
  intros Hall.
  destruct (cursors_reach_any (UINT_MOD - 1)) as (m & Hreach & Hr & Hw & He);
    [unfold UINT_MOD; lia ..|].
  specialize (Hall (consoleintr chr_NL m) (reach_intr chr_NL m Hreach)).
  rewrite consoleintr_accept in Hall by
    (try reflexivity; try discriminate; rewrite He, Hr, Z.sub_diag; reflexivity).
  cbn zeta in Hall. change (normalize chr_NL) with chr_NL in Hall.
  change (commits chr_NL ?x) with true in Hall. cbv iota in Hall.
  destruct Hall as (Hrw & _). simpl in Hrw.
  rewrite ?cons_consputc in Hrw. simpl in Hrw.
  rewrite Hr, He in Hrw. vm_compute in Hrw. apply Hrw. reflexivity.
Qed.

(** C1 (amended): in every reachable state the cursors are ordered on
    their [uint] distances, [cons.w - cons.r <= cons.e - cons.r <=
    INPUT_BUF_SIZE]; and they are ordered as plain integers,
    [cons.r <= cons.w <= cons.e <= cons.r + INPUT_BUF_SIZE], whenever
    [cons.r + INPUT_BUF_SIZE] is still below 2^32. *)
Theorem C1_cursor_invariant m :
  reachable m ->
  cursors_ordered_uint (cons m) /\
  (r (cons m) + INPUT_BUF_SIZE < UINT_MOD -> cursors_ordered (cons m)).
Proof.
  intros Hreach. apply reachable_ring_ok in Hreach. split.
  - now apply ring_ok_ordered_uint.
  - now apply ring_ok_ordered.
Qed.

Lemma C1_cursor_invariant_witness :
  cursors_ordered_uint (cons (pushes [97; 98; 10] machine_init)) /\
  (r (cons (pushes [97; 98; 10] machine_init)) + INPUT_BUF_SIZE < UINT_MOD ->
   cursors_ordered (cons (pushes [97; 98; 10] machine_init))).
Proof.
  apply (C1_cursor_invariant (pushes [97; 98; 10] machine_init)).
  apply (reach_intr 10 (consoleintr 98 (consoleintr 97 machine_init))).
  apply reach_intr. apply reach_intr. apply reach_init.
Defined.

(** ** What an accepted character does *)

Lemma trace_consputc c m : trace (consputc c m) = trace m ++ echo c.
Proof.
  unfold consputc, echo. destruct (c =? BACKSPACE); simpl;
    rewrite <- ?app_assoc; reflexivity.
Qed.

Lemma accept_effect c m :
  ordinary c = true -> c <> 0 ->
  uint (e (cons m) - r (cons m)) < INPUT_BUF_SIZE ->
  let c' := normalize c in
  let m' := consoleintr c m in
  trace m' = trace m ++ echo c'
             ++ EvStore (e (cons m) mod INPUT_BUF_SIZE) (to_char c')
                :: (if commits_after c' m then [EvWakeup] else []) /\
  buf (cons m') =
    <[Z.to_nat (e (cons m) mod INPUT_BUF_SIZE) := to_char c']> (buf (cons m)) /\
  r (cons m') = r (cons m) /\
  e (cons m') = uint (e (cons m) + 1) /\
  w (cons m') = if commits_after c' m then uint (e (cons m) + 1) else w (cons m).
Proof.
  intros Hord Hc Hroom c' m'. subst m'.
  rewrite consoleintr_accept by assumption. fold c'. cbn zeta.
  assert (Hcm : commits c' (append c' (consputc c' m)) = commits_after c' m).
  { unfold commits, commits_after, append. simpl. rewrite cons_consputc.
    reflexivity. }
  rewrite Hcm.
  destruct (commits_after c' m); unfold append, setbuf, wakeup, emit; simpl;
    rewrite ?cons_consputc, ?trace_consputc, <- ?app_assoc; simpl;
    repeat split; reflexivity.
Qed.

(** C2, as stated, fails: with the buffer at capacity (128 characters
    typed, none read) a further ordinary character is not echoed; the
    uart has received the 128 earlier echoes and nothing else. *)
Lemma C2_counterexample :
  let m := pushes (replicate 128 97) machine_init in
  ordinary 120 = true /\
  uint (e (cons m) - r (cons m)) = INPUT_BUF_SIZE /\
  uart_bytes (trace (consoleintr 120 m)) = replicate 128 97.
Proof. vm_compute. repeat split; reflexivity. Qed.

(** C2 (amended): for every character [c] of the default branch other
    than NUL, if the buffer has room ([cons.e - cons.r < INPUT_BUF_SIZE])
    the character (a carriage return turned into a newline) is echoed
    first and stored next, the store being the first change to the ring;
    if the buffer is at capacity the character is dropped with no echo
    and no change at all. *)
Theorem C2_echo_before_store c m :
  ordinary c = true -> c <> 0 ->
  (uint (e (cons m) - r (cons m)) < INPUT_BUF_SIZE ->
   exists rest,
     trace (consoleintr c m) =
       trace m ++ echo (normalize c)
       ++ EvStore (e (cons m) mod INPUT_BUF_SIZE) (to_char (normalize c)) :: rest /\
     (rest = [] \/ rest = [EvWakeup]) /\
     buf (cons (consoleintr c m)) =
       <[Z.to_nat (e (cons m) mod INPUT_BUF_SIZE) := to_char (normalize c)]>
         (buf (cons m)) /\
     e (cons (consoleintr c m)) = uint (e (cons m) + 1)) /\
  (INPUT_BUF_SIZE <= uint (e (cons m) - r (cons m)) ->
   consoleintr c m = m).
Proof.
  intros Hord Hc. split.
  - intros Hroom.
    destruct (accept_effect c m Hord Hc Hroom) as (Ht & Hb & _ & He & _).
    eexists. split; [exact Ht|]. split; [|split; assumption].
    destruct (commits_after (normalize c) m); auto.
  - intros Hfull. apply consoleintr_drop; auto.
Qed.

Lemma C2_echo_before_store_witness :
  (exists rest,
     trace (consoleintr 120 (pushes [97] machine_init)) =
       trace (pushes [97] machine_init) ++ echo 120 ++ EvStore 1 120 :: rest) /\
  consoleintr 120 (pushes (replicate 128 97) machine_init)
    = pushes (replicate 128 97) machine_init.
Proof.
  split.
  - destruct (proj1 (C2_echo_before_store 120 (pushes [97] machine_init)
                       eq_refl ltac:(discriminate)))
      as (rest & Ht & _); [vm_compute; reflexivity|].
    exists rest. exact Ht.
  - apply (proj2 (C2_echo_before_store 120
                    (pushes (replicate 128 97) machine_init)
                    eq_refl ltac:(discriminate))).
    vm_compute. discriminate.
Defined.

(** C9: a NUL byte leaves the machine as it is (nothing echoed, stored,
    committed or woken), whatever room the buffer has; every other
    character of the default branch is echoed and appended whenever the
    buffer has room, so NUL is the only one rejected regardless of
    capacity. *)
Theorem C9_nul_ignored :
  ordinary 0 = true /\
  (forall m, consoleintr 0 m = m) /\
  (forall c m,
     ordinary c = true -> c <> 0 ->
     uint (e (cons m) - r (cons m)) < INPUT_BUF_SIZE ->
     consoleintr c m <> m /\
     (exists rest, trace (consoleintr c m) = trace m ++ echo (normalize c) ++ rest) /\
     e (cons (consoleintr c m)) = uint (e (cons m) + 1)).
Proof.
  split; [reflexivity|]. split.
  - intros m. apply consoleintr_drop; auto.
  - intros c m Hord Hc Hroom.
    destruct (accept_effect c m Hord Hc Hroom) as (Ht & _ & _ & He & _).
    split; [|split; [eauto|exact He]].
    intros Heq. rewrite Heq in Ht.
    apply (f_equal (@length event)) in Ht.
    rewrite !length_app in Ht. simpl in Ht. lia.
Qed.

Lemma C9_nul_ignored_witness :
  consoleintr 0 machine_init = machine_init /\
  consoleintr 97 machine_init <> machine_init.
Proof.
  destruct C9_nul_ignored as (_ & Hnul & Hother). split.
  - apply Hnul.
  - apply (Hother 97 machine_init); [reflexivity|discriminate|].
    vm_compute. reflexivity.
Defined.

(** ** Runs of [consoleread] over bytes that are copied out *)

Lemma read_loop_step killed copyout fuel user_dst dst n target m :
  0 < n ->
  read_loop killed copyout (S fuel) user_dst dst n target m =
    match read_body killed copyout user_dst dst n target m with
    | Exit m' o => Some (m', o)
    | Next m' n' dst' => read_loop killed copyout fuel user_dst dst' n' target m'
    end.
Proof.
  intros Hn. simpl. apply Z.leb_gt in Hn. rewrite Hn. reflexivity.
Qed.

Lemma read_loop_done killed copyout fuel user_dst dst target m :
  read_loop killed copyout fuel user_dst dst 0 target m =
    Some (m, Returned (read_ret target 0)).
Proof. destruct fuel; reflexivity. Qed.

Lemma visible_cons l : forall m1 m2,
  cons m1 = cons m2 -> visible l m1 -> visible l m2.
Proof.
  induction l as [|c l IH]; intros m1 m2 Heq; simpl; [trivial|].
  unfold getbuf. rewrite Heq. intros (Hrw & Hget & Hvis).
  repeat split; try assumption.
  eapply IH; [|exact Hvis]. unfold set_r. simpl. rewrite Heq. reflexivity.
Qed.

Lemma read_loop_drain killed copyout user_dst target l :
  forall fuel dst n m,
    visible l m -> Forall inline l -> copy_ok copyout user_dst dst l ->
    Z.of_nat (length l) <= n ->
    read_loop killed copyout (length l + fuel) user_dst dst n target m =
    read_loop killed copyout fuel user_dst (dst_after (length l) dst)
      (n - Z.of_nat (length l)) target (drain user_dst dst l m).
Proof.
  induction l as [|c l IH]; intros fuel dst n m Hvis Hin Hcopy Hn.
  - simpl. rewrite Z.sub_0_r. reflexivity.
  - destruct Hvis as (Hrw & Hget & Hvis). destruct Hcopy as (Hc & Hcopy).
    inversion Hin as [|? ? [Hnl Heof] Hin']; subst.
    cbn [length] in *. change (S (length l) + fuel)%nat with (S (length l + fuel)).
    rewrite read_loop_step by lia.
    rewrite read_body_deliver by assumption. cbn zeta.
    apply Z.eqb_neq in Hnl. rewrite Hnl.
    rewrite IH; try assumption; try lia.
    + simpl. f_equal. lia.
    + eapply visible_cons; [|exact Hvis]. reflexivity.
Qed.

Lemma trace_drain_events user_dst l : forall dst m,
  trace (drain user_dst dst l m) = trace m ++ copy_events user_dst dst l.
Proof.
  induction l as [|c l IH]; intros dst m; simpl.
  - now rewrite app_nil_r.
  - rewrite IH. simpl. rewrite <- app_assoc. reflexivity.
Qed.

(** The bytes of a run of copy-outs are the bytes copied. *)
Lemma delivered_copy_events user_dst l : forall dst,
  delivered (copy_events user_dst dst l) = l.
Proof.
  induction l as [|c l IH]; intros dst; simpl; [reflexivity|].
  now rewrite IH.
Qed.

Lemma buf_drain user_dst l : forall dst m,
  buf (cons (drain user_dst dst l m)) = buf (cons m) /\
  w (cons (drain user_dst dst l m)) = w (cons m) /\
  e (cons (drain user_dst dst l m)) = e (cons m).
Proof.
  induction l as [|c l IH]; intros dst m; simpl; [auto|].
  destruct (IH (uint64 (dst + 1))
              (emit (EvCopyout user_dst dst c) (set_r (uint (r (cons m) + 1)) m)))
    as (Hb & Hw & He).
  rewrite Hb, Hw, He. auto.
Qed.

(** [target - n] counts the bytes delivered so far. *)
Lemma read_ret_count n k :
  0 <= k <= n -> n <= INT_MAX -> read_ret (uint n) (n - k) = k.
Proof.
  intros Hk Hn. unfold read_ret, to_int, uint, INT_MAX, UINT_MOD in *.
  rewrite (Z.mod_small n), (Z.mod_small (n - k)) by lia.
  replace (n - (n - k)) with k by lia.
  rewrite !(Z.mod_small k) by lia.
  destruct (k <? 2147483648) eqn:Hlt; [reflexivity|].
  apply Z.ltb_ge in Hlt. lia.
Qed.

(** C4: from the empty ring, typing "ab\n" and then reading with
    [n >= 3] into a destination that accepts the copies returns 3 after
    copying out exactly the bytes 'a', 'b', '\n', in this order. *)
Theorem C4_roundtrip killed copyout user_dst dst n :
  3 <= n <= INT_MAX ->
  copy_ok copyout user_dst dst [97; 98; 10] ->
  exists m',
    consoleread killed copyout user_dst dst n (pushes [97; 98; 10] machine_init)
      = Some (m', Returned 3) /\
    trace m' = trace (pushes [97; 98; 10] machine_init)
               ++ copy_events user_dst dst [97; 98; 10] /\
    delivered (copy_events user_dst dst [97; 98; 10]) = [97; 98; 10] /\
    r (cons m') = 3 /\ w (cons m') = 3 /\ e (cons m') = 3.
Proof.
  intros Hn (Hc0 & Hc1 & Hc2 & _).
  set (m0 := pushes [97; 98; 10] machine_init).
  assert (Hvis : visible [97; 98; 10] m0).
  { vm_compute. repeat split; try reflexivity; discriminate. }
  destruct Hvis as (Hrw0 & Hg0 & Hrw1 & Hg1 & Hrw2 & Hg2 & _).
  unfold consoleread.
  replace (Z.to_nat n)
    with (length [97; 98] + S (Z.to_nat (n - 3)))%nat by (simpl; lia).
  rewrite (read_loop_drain killed copyout user_dst (uint n) [97; 98]);
    [ | simpl; auto
      | repeat constructor; discriminate
      | simpl; auto
      | simpl; lia ].
  rewrite read_loop_step by (simpl; lia).
  set (m2 := drain user_dst dst [97; 98] m0).
  assert (Hr2 : r (cons m2) = 2) by reflexivity.
  assert (Hw2 : w (cons m2) = 3) by reflexivity.
  assert (Hget : getbuf m2 (r (cons m2)) = 10) by reflexivity.
  rewrite read_body_deliver;
    [ | rewrite Hr2, Hw2; discriminate
      | rewrite Hget; discriminate
      | exact Hc2 ].
  cbn zeta. rewrite Hget. change (10 =? chr_NL) with true. cbv iota.
  replace (n - Z.of_nat (length [97; 98]) - 1) with (n - 3) by (simpl; lia).
  rewrite read_ret_count by lia.
  eexists. split; [reflexivity|].
  split; [|repeat split; reflexivity].
  reflexivity.
Qed.

Lemma C4_roundtrip_witness :
  exists m',
    consoleread false copy_always 1 4096 3 (pushes [97; 98; 10] machine_init)
      = Some (m', Returned 3) /\
    delivered (trace m') = [97; 98; 10].
Proof.
  destruct (C4_roundtrip false copy_always 1 4096 3) as (m' & Hrun & Ht & _).
  - unfold INT_MAX. lia.
  - simpl. auto.
  - exists m'. split; [exact Hrun|]. rewrite Ht. reflexivity.
Defined.

(** C3: from the empty ring, typing 'a', 'b' and Ctrl-D and then
    reading twice with [n >= 10]: the first call copies out exactly
    'a', 'b' and returns 2, leaving [cons.r] on the marker (pushed back,
    not consumed); the second call copies nothing, returns 0 and has
    consumed the marker. *)
Theorem C3_eof_pairing killed copyout user_dst dst n
        killed' copyout' user_dst' dst' n' :
  10 <= n <= INT_MAX -> 10 <= n' <= INT_MAX ->
  copy_ok copyout user_dst dst [97; 98] ->
  exists m1 m2,
    consoleread killed copyout user_dst dst n (pushes [97; 98; 4] machine_init)
      = Some (m1, Returned 2) /\
    trace m1 = trace (pushes [97; 98; 4] machine_init)
               ++ copy_events user_dst dst [97; 98] /\
    r (cons m1) = 2 /\ getbuf m1 (r (cons m1)) = C chr_D /\
    consoleread killed' copyout' user_dst' dst' n' m1 = Some (m2, Returned 0) /\
    trace m2 = trace m1 /\
    r (cons m2) = 3 /\ w (cons m2) = 3.
Proof.
  intros Hn Hn' (Hc0 & Hc1 & _).
  set (m0 := pushes [97; 98; 4] machine_init).
  assert (Hvis : visible [97; 98] m0).
  { vm_compute. repeat split; try reflexivity; discriminate. }
  unfold consoleread at 1.
  replace (Z.to_nat n)
    with (length [97; 98] + S (Z.to_nat (n - 3)))%nat by (simpl; lia).
  rewrite (read_loop_drain killed copyout user_dst (uint n) [97; 98]);
    [ | exact Hvis
      | repeat constructor; discriminate
      | simpl; auto
      | simpl; lia ].
  rewrite read_loop_step by (simpl; lia).
  set (ma := drain user_dst dst [97; 98] m0).
  assert (Hra : r (cons ma) = 2) by reflexivity.
  assert (Hwa : w (cons ma) = 3) by reflexivity.
  assert (Hga : getbuf ma (r (cons ma)) = C chr_D) by reflexivity.
  rewrite read_body_eof; [ | rewrite Hra, Hwa; discriminate | exact Hga ].
  replace (n - Z.of_nat (length [97; 98])) with (n - 2) by (simpl; lia).
  assert (Hlt : (uint (n - 2) <? uint n) = true).
  { apply Z.ltb_lt. unfold uint, UINT_MOD, INT_MAX in *.
    rewrite !Z.mod_small by lia. lia. }
  rewrite Hlt, read_ret_count by lia.
  set (m1 := set_r _ _).
  assert (Hr1 : r (cons m1) = 2) by reflexivity.
  assert (Hw1 : w (cons m1) = 3) by reflexivity.
  assert (Hg1 : getbuf m1 (r (cons m1)) = C chr_D) by reflexivity.
  exists m1. eexists. split; [reflexivity|].
  split; [reflexivity|]. split; [exact Hr1|]. split; [exact Hg1|].
  unfold consoleread.
  replace (Z.to_nat n') with (S (Z.to_nat (n' - 1))) by lia.
  rewrite read_loop_step by lia.
  rewrite read_body_eof; [ | rewrite Hr1, Hw1; discriminate | exact Hg1 ].
  rewrite Z.ltb_irrefl, Hr1.
  replace (read_ret (uint n') n') with 0
    by (symmetry; rewrite <- (Z.sub_0_r n') at 2; apply read_ret_count; lia).
  split; [reflexivity|]. repeat split; reflexivity.
Qed.

Lemma C3_eof_pairing_witness :
  exists m1 m2,
    consoleread false copy_always 1 4096 10 (pushes [97; 98; 4] machine_init)
      = Some (m1, Returned 2) /\
    delivered (trace m1) = [97; 98] /\
    consoleread false copy_always 1 4096 10 m1 = Some (m2, Returned 0) /\
    delivered (trace m2) = [97; 98].
Proof.
  destruct (C3_eof_pairing false copy_always 1 4096 10 false copy_always 1 4096 10)
    as (m1 & m2 & Hrun1 & Ht1 & _ & _ & Hrun2 & Ht2 & _).
  - unfold INT_MAX. lia.
  - unfold INT_MAX. lia.
  - simpl. auto.
  - exists m1, m2. rewrite Ht2, Ht1. repeat split; assumption || reflexivity.
Defined.

(** C5: from the empty ring, typing "abc" and then Ctrl-U brings
    [cons.e] back to [cons.w], with one backspace echo (backspace,
    space, backspace) per erased character and nothing else changed;
    Ctrl-U with [cons.e == cons.w] leaves the machine as it is. *)
Theorem C5_kill_line :
  let m3 := pushes [97; 98; 99] machine_init in
  let m4 := consoleintr (C chr_U) m3 in
  (e (cons m3) = 3 /\ w (cons m3) = 0) /\
  (e (cons m4) = w (cons m4) /\ e (cons m4) = 0 /\ r (cons m4) = 0) /\
  trace m4 = trace m3 ++ echo BACKSPACE ++ echo BACKSPACE ++ echo BACKSPACE /\
  consoleintr (C chr_U) m4 = m4 /\
  (forall m, e (cons m) = w (cons m) -> consoleintr (C chr_U) m = m).
Proof.
  cbv zeta. split; [split; reflexivity|].
  split; [repeat split; reflexivity|].
  split; [reflexivity|]. split; [reflexivity|].
  intros m Hew. unfold consoleintr.
  change (C chr_U =? C chr_P) with false. change (C chr_U =? C chr_U) with true.
  cbv iota. rewrite Hew, Z.sub_diag. reflexivity.
Qed.

Lemma C5_kill_line_witness :
  consoleintr (C chr_U) machine_init = machine_init.
Proof.
  destruct C5_kill_line as (_ & _ & _ & _ & Hnop).
  apply (Hnop machine_init). reflexivity.
Defined.

(** C7: a reader that finds [cons.r == cons.w] while its process is
    killed returns -1 at once and leaves the machine (buffer, cursors,
    trace) exactly as it was; this holds for a call that has just
    started and for a reader woken from its sleep, which an unkilled
    reader enters in that same state without touching the ring. *)
Theorem C7_cancelled copyout user_dst dst n target m :
  0 < n -> r (cons m) = w (cons m) ->
  consoleread true copyout user_dst dst n m = Some (m, Returned (-1)) /\
  consoleread_wake true copyout user_dst dst n target m = Some (m, Returned (-1)) /\
  consoleread false copyout user_dst dst n m = Some (m, Asleep n dst (uint n)).
Proof.
  intros Hn Hrw. unfold consoleread, consoleread_wake.
  replace (Z.to_nat n) with (S (Z.to_nat (n - 1))) by lia.
  rewrite !read_loop_step by assumption.
  unfold read_body. apply Z.eqb_eq in Hrw. rewrite Hrw. auto.
Qed.

Lemma C7_cancelled_witness :
  consoleread true copy_always 1 4096 10 (pushes [97; 98] machine_init)
    = Some (pushes [97; 98] machine_init, Returned (-1)).
Proof.
  apply (C7_cancelled copy_always 1 4096 10 0 (pushes [97; 98] machine_init)).
  - lia.
  - reflexivity.
Defined.

(** C10: when [either_copyout] fails on a byte, the byte has been
    popped and stays popped: the reader returns the number of bytes it
    had delivered before ([k], with [n0 - k] still to read), [cons.r] is
    one past the failed byte and nothing else in the ring has changed.
    With "ab\n" typed, a read whose copy fails returns 0 and a second
    read into a good destination delivers only "b\n". *)
Theorem C10_copy_failure killed copyout user_dst dst n0 k m :
  0 <= k < n0 -> n0 <= INT_MAX ->
  r (cons m) <> w (cons m) ->
  getbuf m (r (cons m)) <> C chr_D ->
  copyout user_dst dst = false ->
  (exists m',
     consoleread_wake killed copyout user_dst dst (n0 - k) (uint n0) m
       = Some (m', Returned k) /\
     cons m' = mkCons (buf (cons m)) (uint (r (cons m) + 1))
                      (w (cons m)) (e (cons m)) /\
     trace m' = trace m ++ [EvCopyFail user_dst dst (getbuf m (r (cons m)))]) /\
  (exists m1 m2,
     consoleread false copy_never 1 4096 10 (pushes [97; 98; 10] machine_init)
       = Some (m1, Returned 0) /\
     consoleread false copy_always 1 4096 10 m1 = Some (m2, Returned 2) /\
     delivered (trace m2) = [98; 10]).
Proof.
  intros Hk Hn0 Hrw Hc Hfail. split.
  - unfold consoleread_wake.
    replace (Z.to_nat (n0 - k)) with (S (Z.to_nat (n0 - k - 1))) by lia.
    rewrite read_loop_step by lia.
    unfold read_body. apply Z.eqb_neq in Hrw. apply Z.eqb_neq in Hc.
    rewrite Hrw, Hc, Hfail. cbn [negb].
    rewrite read_ret_count by lia.
    eexists. split; [reflexivity|]. split; reflexivity.
  - eexists. eexists. split; [vm_compute; reflexivity|].
    split; vm_compute; reflexivity.
Qed.

Lemma C10_copy_failure_witness :
  exists m',
    consoleread_wake false copy_never 1 4096 10 (uint 10)
      (pushes [97; 98; 10] machine_init) = Some (m', Returned 0) /\
    r (cons m') = 1.
Proof.
  destruct (proj1 (C10_copy_failure false copy_never 1 4096 10 0
                     (pushes [97; 98; 10] machine_init)
                     ltac:(lia) ltac:(unfold INT_MAX; lia)
                     ltac:(vm_compute; discriminate)
                     ltac:(vm_compute; discriminate) eq_refl))
    as (m' & Hrun & Hcons & _).
  exists m'. split; [exact Hrun|]. rewrite Hcons. reflexivity.
Defined.

(** ** One call of [consoleread], sleeps included *)

Lemma newline_free_last evs : newline_free evs -> newline_last evs.
Proof.
  induction evs as [|ev evs IH]; simpl; [trivial|].
  destruct ev; auto. intros (Hc & Hfree). split; [contradiction|auto].
Qed.

Lemma newline_free_app_last evs1 evs2 :
  newline_free evs1 -> newline_last evs2 -> newline_last (evs1 ++ evs2).
Proof.
  induction evs1 as [|ev evs1 IH]; simpl; [trivial|].
  destruct ev; auto. intros (Hc & Hfree) Hlast. split; [contradiction|auto].
Qed.

Lemma newline_last_split evs pre a b post :
  newline_last evs -> evs = pre ++ EvCopyout a b chr_NL :: post -> post = [].
Proof.
  revert evs. induction pre as [|ev pre IH]; intros evs Hlast ->; simpl in Hlast.
  - destruct Hlast as (Hnil & _). now apply Hnil.
  - apply (IH (pre ++ EvCopyout a b chr_NL :: post)); [|reflexivity].
    destruct ev; try assumption. apply Hlast.
Qed.

(** One run of the reader: what it appends to the trace has no newline
    copy if it ends asleep, and at most one, in last place, if it
    returns. *)
Lemma read_loop_newline killed copyout fuel : forall user_dst dst n target m m' o,
  read_loop killed copyout fuel user_dst dst n target m = Some (m', o) ->
  exists evs,
    trace m' = trace m ++ evs /\
    match o with
    | Returned _ => newline_last evs
    | Asleep _ _ _ => newline_free evs
    end.
Proof.
  induction fuel as [|k IH]; intros user_dst dst n target m m' o Hrun;
    simpl in Hrun; destruct (n <=? 0); try discriminate;
    try (injection Hrun as <- <-; exists []; rewrite app_nil_r; simpl; auto).
  unfold read_body in Hrun.
  destruct (r (cons m) =? w (cons m)).
  { destruct killed; injection Hrun as <- <-; exists [];
      rewrite app_nil_r; simpl; auto. }
  destruct (getbuf m (r (cons m)) =? C chr_D).
  { injection Hrun as <- <-. exists [].
    rewrite app_nil_r. destruct (uint n <? target); simpl; auto. }
  destruct (negb (copyout user_dst dst)).
  { injection Hrun as <- <-. eexists. split; [reflexivity|]. simpl. auto. }
  destruct (getbuf m (r (cons m)) =? chr_NL) eqn:Hnl.
  { injection Hrun as <- <-. eexists. split; [reflexivity|]. simpl. auto. }
  apply IH in Hrun as (evs & Ht & Ho). simpl in Ht.
  apply Z.eqb_neq in Hnl.
  exists (EvCopyout user_dst dst (getbuf m (r (cons m))) :: evs).
  split; [rewrite Ht, <- app_assoc; reflexivity|].
  destruct o; simpl; split; auto; contradiction.
Qed.

Lemma read_call_newline_last user_dst m dst n target evs m' ret :
  read_call user_dst m dst n target evs m' ret -> newline_last evs.
Proof.
  induction 1 as [kl cp m dst n target m' ret evs Hrun Ht
                 | kl cp m dst n target m1 n1 dst1 target1 evs1 m2 evs2 m' ret
                     Hrun Ht _ IH].
  - apply read_loop_newline in Hrun as (evs' & Ht' & Hlast).
    rewrite Ht in Ht'. apply app_inv_head in Ht'. now subst.
  - apply read_loop_newline in Hrun as (evs' & Ht' & Hfree).
    rewrite Ht in Ht'. apply app_inv_head in Ht'. subst.
    now apply newline_free_app_last.
Qed.

Lemma newline_last_delivered evs :
  newline_last evs ->
  forall l1 l2, delivered evs = l1 ++ chr_NL :: l2 -> l2 = [].
Proof.
  induction evs as [|ev evs IH]; intros Hlast l1 l2 Hsplit.
  - destruct l1; discriminate.
  - destruct ev as [c | | | i c | u d c | u d c]; simpl in Hlast, Hsplit;
      try (now apply (IH Hlast l1 l2)).
    destruct Hlast as (Hnil & Hlast).
    destruct l1 as [|x l1]; simpl in Hsplit; injection Hsplit as Hc Hrest.
    + rewrite (Hnil Hc) in Hrest. simpl in Hrest. now subst.
    + now apply (IH Hlast l1 l2).
Qed.

(** C8, as stated, fails for a line that a full buffer committed: with
    128 bytes 'a' typed (forced commit), 5 of them read, and "b\n" typed
    after that (second commit), one call of [consoleread] returns 125
    bytes, the 123 left of the forced commit and the 2 of the next
    one. *)
Lemma C8_counterexample :
  exists ma mc,
    consoleread false copy_always 1 4096 5
      (pushes (replicate 128 97) machine_init) = Some (ma, Returned 5) /\
    committed ma = replicate 123 97 /\
    committed (pushes [98; 10] ma) = replicate 123 97 ++ [98; 10] /\
    wakeups (trace (pushes [98; 10] ma)) = 2%nat /\
    consoleread false copy_always 1 8192 200 (pushes [98; 10] ma)
      = Some (mc, Returned 125) /\
    trace mc = trace (pushes [98; 10] ma)
               ++ copy_events 1 8192 (replicate 123 97 ++ [98; 10]).
Proof.
  eexists. eexists.
  split; [vm_compute; reflexivity|].
  split; [vm_compute; reflexivity|].
  split; [vm_compute; reflexivity|].
  split; [vm_compute; reflexivity|].
  split; vm_compute; reflexivity.
Qed.

(** C8 (amended): in every call of [consoleread], sleeps included,
    delivery stops at the first newline delivered: among the events of
    the call (copy-outs and failed copies) the copy-out of a newline
    is the last one, and among the bytes it delivers a newline is the
    last one; so a call never returns bytes past the first newline,
    however large [n] is.  Bytes committed by a full buffer carry no
    newline and are no such boundary. *)
Theorem C8_stops_at_newline user_dst m dst n evs m' ret :
  read_call user_dst m dst n (uint n) evs m' ret ->
  (forall pre a b post,
     evs = pre ++ EvCopyout a b chr_NL :: post -> post = []) /\
  (forall l1 l2, delivered evs = l1 ++ chr_NL :: l2 -> l2 = []).
Proof.
  intros Hcall.
  assert (Hlast : newline_last evs)
    by (eapply read_call_newline_last; exact Hcall).
  split.
  - intros pre a b post Hsplit. eapply newline_last_split; eassumption.
  - now apply newline_last_delivered.
Qed.

Lemma C8_stops_at_newline_witness :
  read_call 1 (pushes [97; 98; 10; 99; 100; 10] machine_init) 4096 10 (uint 10)
    (copy_events 1 4096 [97; 98; 10])
    (drain 1 4096 [97; 98; 10] (pushes [97; 98; 10; 99; 100; 10] machine_init))
    3 /\
  skipn 3 (copy_events 1 4096 [97; 98; 10]) = [].
Proof.
  assert (Hcall :
    read_call 1 (pushes [97; 98; 10; 99; 100; 10] machine_init) 4096 10 (uint 10)
      (copy_events 1 4096 [97; 98; 10])
      (drain 1 4096 [97; 98; 10] (pushes [97; 98; 10; 99; 100; 10] machine_init))
      3).
  { apply (call_return 1 false copy_always); vm_compute; reflexivity. }
  split; [exact Hcall|].
  apply (proj1 (C8_stops_at_newline 1 _ _ _ _ _ _ Hcall)
           [EvCopyout 1 4096 97; EvCopyout 1 4097 98] 1 4098).
  reflexivity.
Defined.

(** ** Filling the buffer *)

Lemma wakeups_app evs1 evs2 :
  wakeups (evs1 ++ evs2) = (wakeups evs1 + wakeups evs2)%nat.
Proof.
  induction evs1 as [|ev evs1 IH]; [reflexivity|].
  destruct ev; simpl; rewrite IH; reflexivity.
Qed.

Lemma wakeups_echo c : wakeups (echo c) = O.
Proof. unfold echo. destruct (c =? BACKSPACE); reflexivity. Qed.

Lemma pushes_app l1 l2 m : pushes (l1 ++ l2) m = pushes l2 (pushes l1 m).
Proof. unfold pushes. apply fold_left_app. Qed.

Lemma plain_facts c :
  plain c = true ->
  ordinary c = true /\ 0 < c < 256 /\ c <> chr_NL /\ c <> C chr_D /\
  normalize c = c /\ to_char c = c.
Proof.
  unfold plain. intros H.
  apply andb_true_iff in H as [H Heof]. apply andb_true_iff in H as [H Hcr].
  apply andb_true_iff in H as [H Hnl]. apply andb_true_iff in H as [H Hord].
  apply andb_true_iff in H as [Hpos Hbyte].
  apply negb_true_iff in Heof, Hcr, Hnl.
  apply Z.eqb_neq in Heof, Hnl. apply Z.ltb_lt in Hpos, Hbyte.
  repeat split; try assumption.
  - unfold normalize. now rewrite Hcr.
  - unfold to_char. apply Z.mod_small. lia.
Qed.

(** Typing one plain byte into a ring that nobody has read from and
    that stays below capacity. *)
Lemma push_plain c m :
  plain c = true -> ring_ok (cons m) ->
  r (cons m) = 0 -> w (cons m) = 0 -> 0 <= e (cons m) < 127 ->
  let m' := consoleintr c m in
  r (cons m') = 0 /\ w (cons m') = 0 /\ e (cons m') = e (cons m) + 1 /\
  buf (cons m') = <[Z.to_nat (e (cons m)) := c]> (buf (cons m)) /\
  wakeups (trace m') = wakeups (trace m).
Proof.
  intros Hp Hok Hr Hw He m'.
  destruct (plain_facts c Hp) as (Hord & Hc & Hnl & Heof & Hnorm & Hchar).
  assert (Hroom : uint (e (cons m) - r (cons m)) < INPUT_BUF_SIZE).
  { rewrite Hr. uint_arith. }
  destruct (accept_effect c m Hord ltac:(lia) Hroom) as (Ht & Hb & Hr' & He' & Hw').
  fold m' in Ht, Hb, Hr', He', Hw'. rewrite Hnorm, Hchar in *.
  assert (Hcommit : commits_after c m = false).
  { unfold commits_after. apply Z.eqb_neq in Hnl. apply Z.eqb_neq in Heof.
    rewrite Hnl, Heof, Hr. simpl. apply Z.eqb_neq. uint_arith. }
  rewrite Hcommit in *.
  assert (Hmod : e (cons m) mod INPUT_BUF_SIZE = e (cons m)).
  { apply Z.mod_small. unfold INPUT_BUF_SIZE. lia. }
  rewrite Hmod in *.
  repeat split; try congruence.
  - rewrite He'. unfold uint, UINT_MOD. apply Z.mod_small. lia.
  - rewrite Ht, !wakeups_app, wakeups_echo. simpl. lia.
Qed.

(** Typing plain bytes while the ring stays below capacity: they land
    in the buffer in order, [cons.e] counts them, and nothing is
    committed. *)
Lemma pushes_plain l : forall m,
  Forall (fun c => plain c = true) l -> ring_ok (cons m) ->
  r (cons m) = 0 -> w (cons m) = 0 ->
  0 <= e (cons m) -> e (cons m) + Z.of_nat (length l) <= 127 ->
  let m' := pushes l m in
  ring_ok (cons m') /\
  r (cons m') = 0 /\ w (cons m') = 0 /\
  e (cons m') = e (cons m) + Z.of_nat (length l) /\
  buf (cons m') =
    take (Z.to_nat (e (cons m))) (buf (cons m)) ++ l
    ++ drop (Z.to_nat (e (cons m)) + length l) (buf (cons m)) /\
  wakeups (trace m') = wakeups (trace m).
Proof.
  induction l as [|c l IH]; intros m Hall Hok Hr Hw He Hlen; cbn zeta.
  - simpl. rewrite Z.add_0_r, Nat.add_0_r, take_drop.
    split; [exact Hok|]. repeat split; auto.
  - inversion Hall as [|? ? Hc Hall']; subst.
    cbn [length] in Hlen.
    destruct (push_plain c m Hc Hok Hr Hw ltac:(lia))
      as (Hr1 & Hw1 & He1 & Hb1 & Hk1).
    assert (Hok1 := consoleintr_ring_ok c m Hok).
    destruct (IH (consoleintr c m) Hall' Hok1 Hr1 Hw1 ltac:(lia) ltac:(lia))
      as (Hok' & Hr' & Hw' & He' & Hb' & Hk').
    change (pushes (c :: l) m) with (pushes l (consoleintr c m)).
    split; [exact Hok'|]. split; [exact Hr'|]. split; [exact Hw'|].
    split; [rewrite He', He1; cbn [length]; lia|].
    split; [|congruence].
    rewrite Hb', He1, Hb1.
    set (j := Z.to_nat (e (cons m))).
    replace (Z.to_nat (e (cons m) + 1)) with (S j) by lia.
    assert (Hj : (j < length (buf (cons m)))%nat).
    { destruct Hok as (Hl & _). rewrite Hl. unfold INPUT_BUF_SIZE. lia. }
    rewrite (take_S_r _ j c) by (now apply list_lookup_insert_eq).
    rewrite take_insert_ge by lia.
    rewrite drop_insert_lt by lia.
    rewrite <- app_assoc. cbn [length]. simpl app.
    replace (S (j + length l))%nat with (j + S (length l))%nat by lia.
    reflexivity.
Qed.

Lemma echo_plain c : plain c = true -> echo c = [EvUart c].
Proof.
  intros Hp. destruct (plain_facts c Hp) as (_ & Hc & _).
  unfold echo. replace (c =? BACKSPACE) with false; [reflexivity|].
  symmetry. apply Z.eqb_neq. unfold BACKSPACE. lia.
Qed.

(** The plain byte that fills the buffer forces the commit. *)
Lemma push_filling c m :
  plain c = true ->
  r (cons m) = 0 -> e (cons m) = 127 ->
  let m' := consoleintr c m in
  r (cons m') = 0 /\ w (cons m') = 128 /\ e (cons m') = 128 /\
  buf (cons m') = <[127%nat := c]> (buf (cons m)) /\
  trace m' = trace m ++ [EvUart c; EvStore 127 c; EvWakeup].
Proof.
  intros Hp Hr He m'.
  destruct (plain_facts c Hp) as (Hord & Hc & Hnl & Heof & Hnorm & Hchar).
  assert (Hroom : uint (e (cons m) - r (cons m)) < INPUT_BUF_SIZE).
  { rewrite Hr, He. reflexivity. }
  destruct (accept_effect c m Hord ltac:(lia) Hroom) as (Ht & Hb & Hr' & He' & Hw').
  fold m' in Ht, Hb, Hr', He', Hw'.
  rewrite Hnorm, Hchar, (echo_plain c Hp) in *.
  assert (Hcommit : commits_after c m = true).
  { unfold commits_after. rewrite Hr, He. apply orb_true_r. }
  rewrite Hcommit, He in *.
  repeat split; assumption || congruence.
Qed.

(** A plain byte typed at capacity changes nothing. *)
Lemma push_full c m :
  plain c = true -> r (cons m) = 0 -> e (cons m) = 128 ->
  consoleintr c m = m.
Proof.
  intros Hp Hr He. destruct (plain_facts c Hp) as (Hord & _).
  apply consoleintr_drop; [exact Hord|]. right. rewrite Hr, He. discriminate.
Qed.

Lemma visible_from l : forall (j : nat) m rest,
  r (cons m) = Z.of_nat j -> w (cons m) = INPUT_BUF_SIZE ->
  (j + length l <= 128)%nat ->
  drop j (buf (cons m)) = l ++ rest ->
  visible l m.
Proof.
  induction l as [|c l IH]; intros j m rest Hr Hw Hj Hdrop; simpl; [trivial|].
  cbn [length] in Hj.
  assert (Hlook : buf (cons m) !! j = Some c).
  { rewrite <- (Nat.add_0_r j), <- lookup_drop, Hdrop. reflexivity. }
  split; [rewrite Hr, Hw; unfold INPUT_BUF_SIZE; lia|].
  split.
  - unfold getbuf. rewrite Hr.
    rewrite Z.mod_small by (unfold INPUT_BUF_SIZE; lia).
    rewrite Nat2Z.id, Hlook. reflexivity.
  - apply (IH (S j) _ rest); simpl.
    + rewrite Hr. unfold uint, UINT_MOD. rewrite Z.mod_small by lia. lia.
    + exact Hw.
    + lia.
    + rewrite (drop_S _ c j Hlook) in Hdrop. simpl in Hdrop. congruence.
Qed.

Lemma r_drain user_dst l : forall dst m,
  0 <= r (cons m) -> r (cons m) + Z.of_nat (length l) < UINT_MOD ->
  r (cons (drain user_dst dst l m)) = r (cons m) + Z.of_nat (length l).
Proof.
  induction l as [|c l IH]; intros dst m Hr Hlen; simpl; [lia|].
  cbn [length] in Hlen.
  assert (Hstep : uint (r (cons m) + 1) = r (cons m) + 1).
  { unfold uint. apply Z.mod_small. lia. }
  rewrite IH; simpl; rewrite Hstep; lia.
Qed.

Lemma plain_inline l :
  Forall (fun c => plain c = true) l -> Forall inline l.
Proof.
  induction 1 as [|c l Hp _ IH]; constructor; [|exact IH].
  destruct (plain_facts c Hp) as (_ & _ & Hnl & Heof & _). now split.
Qed.

(** The kill-line loop leaves by its own test: started with the fuel
    [consoleintr] gives it, it ends with [cons.e == cons.w] or with a
    newline just before [cons.e]. *)
Lemma kill_loop_exits fuel : forall m,
  in_uint (e (cons m)) -> in_uint (w (cons m)) ->
  (Z.to_nat (uint (e (cons m) - w (cons m))) <= fuel)%nat ->
  let m' := kill_loop fuel m in
  e (cons m') = w (cons m') \/ getbuf m' (uint (e (cons m') - 1)) = chr_NL.
Proof.
  induction fuel as [|k IH]; intros m He Hw Hfuel; cbn zeta.
  - simpl. left. uint_arith.
  - simpl.
    destruct (negb (e (cons m) =? w (cons m))) eqn:Hew; simpl.
    + destruct (negb (getbuf m (uint (e (cons m) - 1)) =? chr_NL)) eqn:Hnl.
      * apply negb_true_iff, Z.eqb_neq in Hew.
        apply IH; rewrite cons_consputc; simpl; try assumption; uint_arith.
      * right. apply negb_false_iff, Z.eqb_eq in Hnl. exact Hnl.
    + left. apply negb_false_iff, Z.eqb_eq in Hew. exact Hew.
Qed.

(** Reading a ring whose 128 slots are all committed and hold no
    newline and no end-of-file marker: a read of exactly 128 bytes
    returns them; a longer read delivers them and then finds
    [cons.r == cons.w], so it sleeps (or returns -1 if killed) instead
    of returning the 128 bytes. *)
Lemma read_full_ring killed copyout user_dst dst n m :
  r (cons m) = 0 -> w (cons m) = INPUT_BUF_SIZE ->
  length (buf (cons m)) = 128%nat ->
  Forall inline (buf (cons m)) ->
  copy_ok copyout user_dst dst (buf (cons m)) ->
  INPUT_BUF_SIZE <= n <= INT_MAX ->
  consoleread killed copyout user_dst dst n m =
    Some (drain user_dst dst (buf (cons m)) m,
          if n =? INPUT_BUF_SIZE then Returned INPUT_BUF_SIZE
          else if killed then Returned (-1)
          else Asleep (n - INPUT_BUF_SIZE) (dst_after 128 dst) (uint n)).
Proof.
  intros Hr Hw Hl Hin Hcopy Hn. unfold INPUT_BUF_SIZE, INT_MAX in *.
  assert (Hvis : visible (buf (cons m)) m).
  { apply (visible_from _ 0%nat m []); try assumption; [lia|].
    now rewrite app_nil_r. }
  unfold consoleread.
  replace (Z.to_nat n)
    with (length (buf (cons m)) + Z.to_nat (n - 128))%nat by lia.
  rewrite read_loop_drain by (assumption || lia).
  rewrite Hl. change (Z.of_nat 128) with 128.
  destruct (n =? 128) eqn:Hn128.
  - apply Z.eqb_eq in Hn128. subst n. change (128 - 128) with 0.
    rewrite read_loop_done. reflexivity.
  - apply Z.eqb_neq in Hn128.
    replace (Z.to_nat (n - 128)) with (S (Z.to_nat (n - 129))) by lia.
    rewrite read_loop_step by lia. unfold read_body.
    destruct (buf_drain user_dst (buf (cons m)) dst m) as (_ & Hwd & _).
    rewrite r_drain, Hwd, Hr, Hw, Hl by (rewrite ?Hr, ?Hl; unfold UINT_MOD; lia).
    change (0 + Z.of_nat 128 =? 128) with true. cbv iota.
    destruct killed; reflexivity.
Qed.

(** What the first [k <= 127] of the characters leave behind. *)
Lemma pushes_prefix cs k :
  Forall (fun c => plain c = true) cs -> (k <= 127)%nat -> (k <= length cs)%nat ->
  let mk := pushes (take k cs) machine_init in
  ring_ok (cons mk) /\
  r (cons mk) = 0 /\ w (cons mk) = 0 /\ e (cons mk) = Z.of_nat k /\
  buf (cons mk) = take k cs ++ drop k (buf cons_init) /\
  wakeups (trace mk) = O.
Proof.
  intros Hall Hk Hlen mk.
  assert (Hlk : length (take k cs) = k) by (rewrite length_take; lia).
  destruct (pushes_plain (take k cs) machine_init) as (Hok & Hr & Hw & He & Hb & Hwk).
  - now apply Forall_take.
  - exact ring_ok_init.
  - reflexivity.
  - reflexivity.
  - simpl. lia.
  - simpl. lia.
  - fold mk in Hok, Hr, Hw, He, Hb, Hwk. rewrite Hlk in *.
    repeat split; try assumption; apply Hok.
Qed.

(** C6, as stated, fails in its last part: the forced commit is no
    line boundary for a reader that asks for more.  With 130 bytes 'a'
    typed, a read of 200 bytes copies out the 128 committed bytes and
    then sleeps instead of returning; woken after "b\n" is typed, the
    same call returns 130. *)
Lemma C6_counterexample :
  exists m1 m2,
    consoleread false copy_always 1 4096 200
      (pushes (replicate 130 97) machine_init)
      = Some (m1, Asleep 72 4224 (uint 200)) /\
    delivered (trace m1) = replicate 128 97 /\
    consoleread_wake false copy_always 1 4224 72 (uint 200) (pushes [98; 10] m1)
      = Some (m2, Returned 130) /\
    delivered (trace m2) = replicate 128 97 ++ [98; 10].
Proof.
  eexists. eexists.
  split; [vm_compute; reflexivity|].
  split; [vm_compute; reflexivity|].
  split; vm_compute; reflexivity.
Qed.

(** C6 (amended): typing [INPUT_BUF_SIZE + 2] plain bytes into the
    empty ring.  None of the first 127 commits anything; the 128th,
    which makes [cons.e - cons.r == INPUT_BUF_SIZE], sets
    [cons.w = cons.e] and wakes the reader, the only wakeup of the
    whole run; the last two bytes change nothing (they are not even
    echoed).  A read of exactly [INPUT_BUF_SIZE] bytes then returns
    the 128 typed bytes although no newline was typed; a read that
    asks for more copies out the same 128 bytes and then, instead of
    returning, sleeps for more input (or returns -1 if killed): the
    forced commit makes the bytes visible but is no line boundary for
    the reader. *)
Theorem C6_overflow cs :
  length cs = 130%nat ->
  Forall (fun c => plain c = true) cs ->
  (forall k, (k < 128)%nat ->
     w (cons (pushes (take k cs) machine_init)) = 0 /\
     e (cons (pushes (take k cs) machine_init)) = Z.of_nat k /\
     wakeups (trace (pushes (take k cs) machine_init)) = O) /\
  (r (cons (pushes (take 128 cs) machine_init)) = 0 /\
   w (cons (pushes (take 128 cs) machine_init)) = 128 /\
   e (cons (pushes (take 128 cs) machine_init)) = 128 /\
   buf (cons (pushes (take 128 cs) machine_init)) = take 128 cs /\
   wakeups (trace (pushes (take 128 cs) machine_init)) = 1%nat) /\
  pushes (take 129 cs) machine_init = pushes (take 128 cs) machine_init /\
  pushes cs machine_init = pushes (take 128 cs) machine_init /\
  (forall killed copyout user_dst dst n,
     copy_ok copyout user_dst dst (take 128 cs) ->
     INPUT_BUF_SIZE <= n <= INT_MAX ->
     exists m',
       consoleread killed copyout user_dst dst n (pushes cs machine_init)
         = Some (m', if n =? INPUT_BUF_SIZE then Returned INPUT_BUF_SIZE
                     else if killed then Returned (-1)
                     else Asleep (n - INPUT_BUF_SIZE) (dst_after 128 dst) (uint n)) /\
       trace m' = trace (pushes cs machine_init)
                  ++ copy_events user_dst dst (take 128 cs) /\
       r (cons m') = 128 /\ w (cons m') = 128).
Proof.
  intros Hlen Hall.
  (* the 128th byte and the two after it *)
  destruct (lookup_lt_is_Some_2 cs 127 ltac:(lia)) as [c127 Hc127].
  destruct (lookup_lt_is_Some_2 cs 128 ltac:(lia)) as [c128 Hc128].
  destruct (lookup_lt_is_Some_2 cs 129 ltac:(lia)) as [c129 Hc129].
  assert (Hp127 : plain c127 = true)
    by (exact (proj1 (Forall_lookup _ cs) Hall 127%nat c127 Hc127)).
  assert (Hp128 : plain c128 = true)
    by (exact (proj1 (Forall_lookup _ cs) Hall 128%nat c128 Hc128)).
  assert (Hp129 : plain c129 = true)
    by (exact (proj1 (Forall_lookup _ cs) Hall 129%nat c129 Hc129)).
  assert (Ht128 : take 128 cs = take 127 cs ++ [c127]) by (now apply take_S_r).
  assert (Ht129 : take 129 cs = take 128 cs ++ [c128]) by (now apply take_S_r).
  assert (Ht130 : cs = take 129 cs ++ [c129]).
  { rewrite <- (take_ge cs 130) at 1 by lia. now apply take_S_r. }
  (* the machine after 127 bytes, and after 128 *)
  destruct (pushes_prefix cs 127 Hall ltac:(lia) ltac:(lia))
    as (Hok & Hr & Hw & He & Hb & Hwk).
  set (m127 := pushes (take 127 cs) machine_init) in *.
  destruct (push_filling c127 m127 Hp127 Hr He) as (Hr' & Hw' & He' & Hb' & Htr').
  assert (Hm128 : pushes (take 128 cs) machine_init = consoleintr c127 m127).
  { rewrite Ht128, pushes_app. reflexivity. }
  assert (Hbuf : buf (cons (consoleintr c127 m127)) = take 128 cs).
  { rewrite Hb', Hb, Ht128.
    change (drop 127 (buf cons_init)) with [0].
    assert (Hl : length (take 127 cs) = 127%nat) by (rewrite length_take; lia).
    rewrite <- Hl at 1. rewrite <- (Nat.add_0_r (length (take 127 cs))).
    rewrite insert_app_r. reflexivity. }
  assert (Hm129 : pushes (take 129 cs) machine_init = consoleintr c127 m127).
  { rewrite Ht129, pushes_app, Hm128. apply push_full; assumption. }
  assert (Hm130 : pushes cs machine_init = consoleintr c127 m127).
  { rewrite Ht130, pushes_app, Hm129. apply push_full; assumption. }
  split; [|split; [|split; [|split]]].
  - intros k Hk.
    destruct (pushes_prefix cs k Hall ltac:(lia) ltac:(lia))
      as (_ & _ & Hwk' & Hek & _ & Hwkk).
    auto.
  - rewrite Hm128. repeat split; try assumption.
    rewrite Htr', wakeups_app, Hwk. reflexivity.
  - congruence.
  - congruence.
  - intros killed copyout user_dst dst n Hcopy Hn.
    rewrite Hm130. set (m := consoleintr c127 m127) in *.
    assert (Hl : length (take 128 cs) = 128%nat) by (rewrite length_take; lia).
    rewrite <- Hbuf in Hcopy, Hl.
    rewrite (read_full_ring killed copyout user_dst dst n m);
      try assumption.
    + eexists. split; [reflexivity|].
      split; [rewrite trace_drain_events, Hbuf; reflexivity|].
      split.
      * rewrite r_drain; rewrite ?Hr', ?Hl; [reflexivity|lia|reflexivity].
      * destruct (buf_drain user_dst (buf (cons m)) dst m) as (_ & Hwd & _).
        rewrite Hwd. exact Hw'.
    + rewrite Hbuf. apply plain_inline. now apply Forall_take.
Qed.

Lemma C6_overflow_witness :
  pushes (replicate 130 97) machine_init
    = pushes (replicate 128 97) machine_init /\
  wakeups (trace (pushes (replicate 128 97) machine_init)) = 1%nat.
Proof.
  destruct (C6_overflow (replicate 130 97)) as (_ & H128 & _ & H130 & _).
  - reflexivity.
  - apply Forall_replicate. reflexivity.
  - split; [exact H130|]. apply H128.
Defined.

(** * Further properties *)

(** ** [consolewrite] *)

Section WriterFacts.

Variable either_copyin : Z -> Z -> option Z.

Lemma write_loop_spec fuel : forall user_src src i n sent,
  0 <= i -> (Z.to_nat (n - i) <= fuel)%nat ->
  exists ret ext,
    write_loop either_copyin fuel user_src src i n sent = Some (ret, sent ++ ext) /\
    i <= ret <= Z.max i n /\
    Z.of_nat (length ext) = ret - i /\
    (forall (j : nat) c, ext !! j = Some c ->
       either_copyin user_src (uint64 (src + (i + Z.of_nat j))) = Some c) /\
    (ret < n -> either_copyin user_src (uint64 (src + ret)) = None).
Proof.
  assert (Hstop : forall user_src src i n sent,
            n <= i ->
            exists ret ext,
              Some (i, sent) = Some (ret, sent ++ ext) /\
              i <= ret <= Z.max i n /\
              Z.of_nat (length ext) = ret - i /\
              (forall (j : nat) c, ext !! j = Some c ->
                 either_copyin user_src (uint64 (src + (i + Z.of_nat j))) = Some c) /\
              (ret < n -> either_copyin user_src (uint64 (src + ret)) = None)).
  { intros user_src src i n sent Hge. exists i, []. rewrite app_nil_r.
    split; [reflexivity|]. split; [lia|]. split; [simpl; lia|].
    split; [intros j c Hj; discriminate|lia]. }
  induction fuel as [|k IH]; intros user_src src i n sent Hi Hfuel; simpl;
    destruct (i <? n) eqn:Hin.
  - apply Z.ltb_lt in Hin. lia.
  - apply Z.ltb_ge in Hin. now apply Hstop.
  - apply Z.ltb_lt in Hin.
    destruct (either_copyin user_src (uint64 (src + i))) as [c|] eqn:Hcopy.
    + destruct (IH user_src src (i + 1) n (sent ++ [c]) ltac:(lia) ltac:(lia))
        as (ret & ext & Hrun & Hret & Hlen & Hext & Hfail).
      exists ret, (c :: ext). rewrite Hrun, <- app_assoc. simpl app.
      split; [reflexivity|]. split; [lia|].
      split; [cbn [length]; lia|]. split; [|exact Hfail].
      intros [|j] c' Hj; simpl in Hj.
      * injection Hj as <-. rewrite Z.add_0_r. exact Hcopy.
      * rewrite <- (Hext j c' Hj). do 3 f_equal. lia.
    + exists i, []. rewrite app_nil_r.
      split; [reflexivity|]. split; [lia|]. split; [simpl; lia|].
      split; [intros j c Hj; discriminate|auto].
  - apply Z.ltb_ge in Hin. now apply Hstop.
Qed.

End WriterFacts.

(** X1: [consolewrite] always returns; the value returned is between
    0 and [n] (0 when [n <= 0]) and is the number of bytes given to
    [uartputc]; these are the source bytes at [src], [src+1], ..., in
    order; and when fewer than [n] were written, the copy-in at the
    next address is the one that failed. *)
Theorem consolewrite_until_failure either_copyin user_src src n :
  exists ret sent,
    consolewrite either_copyin user_src src n = Some (ret, sent) /\
    0 <= ret <= Z.max 0 n /\
    Z.of_nat (length sent) = ret /\
    (forall (j : nat) c, sent !! j = Some c ->
       either_copyin user_src (uint64 (src + Z.of_nat j)) = Some c) /\
    (ret < n -> either_copyin user_src (uint64 (src + ret)) = None).
Proof.
  destruct (write_loop_spec either_copyin (Z.to_nat n) user_src src 0 n []
              ltac:(lia) ltac:(lia))
    as (ret & ext & Hrun & Hret & Hlen & Hext & Hfail).
  exists ret, ext. unfold consolewrite. rewrite Hrun.
  split; [reflexivity|]. split; [exact Hret|]. split; [lia|].
  split; [exact Hext|exact Hfail].
Qed.

(** X2: when every copy-in from [src] to [src + n - 1] succeeds,
    [consolewrite] returns [n] having given [uartputc] all [n] bytes. *)
Theorem consolewrite_all either_copyin user_src src n :
  0 <= n ->
  (forall i, 0 <= i < n ->
     either_copyin user_src (uint64 (src + i)) <> None) ->
  exists sent,
    consolewrite either_copyin user_src src n = Some (n, sent) /\
    Z.of_nat (length sent) = n /\
    (forall (j : nat) c, sent !! j = Some c ->
       either_copyin user_src (uint64 (src + Z.of_nat j)) = Some c).
Proof.
  intros Hn Hok.
  destruct (write_loop_spec either_copyin (Z.to_nat n) user_src src 0 n []
              ltac:(lia) ltac:(lia))
    as (ret & ext & Hrun & Hret & Hlen & Hext & Hfail).
  assert (ret = n).
  { destruct (Z.lt_ge_cases ret n) as [Hlt|Hge]; [|lia].
    exfalso. apply (Hok ret); [lia|auto]. }
  subst ret. exists ext. unfold consolewrite. rewrite Hrun.
  split; [reflexivity|]. split; [lia|exact Hext].
Qed.

Lemma consolewrite_all_witness :
  exists sent,
    consolewrite (fun _ a => Some (a mod 256)) 1 4096 3 = Some (3, sent) /\
    Z.of_nat (length sent) = 3.
Proof.
  destruct (consolewrite_all (fun _ a => Some (a mod 256)) 1 4096 3)
    as (sent & Hrun & Hlen & _).
  - lia.
  - intros i _. discriminate.
  - exists sent. split; assumption.
Defined.

(** ** Windows of the buffer *)

Lemma getbuf_buf m1 m2 j :
  buf (cons m1) = buf (cons m2) -> getbuf m1 j = getbuf m2 j.
Proof. unfold getbuf. now intros ->. Qed.

Lemma window_buf m1 m2 a len :
  buf (cons m1) = buf (cons m2) -> window m1 a len = window m2 a len.
Proof.
  intros Hb. unfold window. apply map_ext. intros i. now apply getbuf_buf.
Qed.

Lemma window_ext m1 m2 a len :
  (forall i, (i < len)%nat ->
     getbuf m1 (uint (a + Z.of_nat i)) = getbuf m2 (uint (a + Z.of_nat i))) ->
  window m1 a len = window m2 a len.
Proof.
  intros Hext. unfold window. apply map_ext_in. intros i Hi.
  apply in_seq in Hi. apply Hext. lia.
Qed.

Lemma length_window m a len : length (window m a len) = len.
Proof. unfold window. now rewrite length_map, length_seq. Qed.

Lemma window_app m a k1 k2 :
  window m a (k1 + k2) =
  window m a k1 ++ window m (uint (a + Z.of_nat k1)) k2.
Proof.
  assert (Hshift : forall k, seq k1 k = map (fun i => (k1 + i)%nat) (seq 0 k)).
  { induction k as [|k IH]; [reflexivity|].
    rewrite !seq_S, map_app, IH. reflexivity. }
  unfold window. rewrite seq_app, map_app. f_equal. simpl.
  rewrite Hshift, map_map. apply map_ext. intros i. f_equal.
  unfold uint. rewrite Zplus_mod_idemp_l. f_equal. lia.
Qed.

Lemma window_take m a len k :
  (k <= len)%nat -> take k (window m a len) = window m a k.
Proof.
  intros Hk. replace len with (k + (len - k))%nat by lia.
  rewrite window_app, take_app_length'; [reflexivity|now rewrite length_window].
Qed.

(** Reading a slot after a store. *)
Lemma getbuf_store i c j m :
  length (buf (cons m)) = Z.to_nat INPUT_BUF_SIZE ->
  getbuf (setbuf i c m) j =
    if i mod INPUT_BUF_SIZE =? j mod INPUT_BUF_SIZE then to_char c
    else getbuf m j.
Proof.
  intros Hlen. unfold getbuf, setbuf; simpl.
  assert (0 <= i mod INPUT_BUF_SIZE < INPUT_BUF_SIZE)
    by (apply Z.mod_pos_bound; reflexivity).
  assert (0 <= j mod INPUT_BUF_SIZE < INPUT_BUF_SIZE)
    by (apply Z.mod_pos_bound; reflexivity).
  destruct (i mod INPUT_BUF_SIZE =? j mod INPUT_BUF_SIZE) eqn:Hij.
  - apply Z.eqb_eq in Hij. rewrite Hij.
    rewrite list_lookup_insert_eq; [reflexivity|]. rewrite Hlen. lia.
  - apply Z.eqb_neq in Hij.
    rewrite list_lookup_insert_ne; [reflexivity|]. lia.
Qed.

(** The slots of a window that ends before [x] are not the slot of
    [x], as long as [x] is less than a buffer ahead of the start. *)
Lemma slot_apart a x i :
  in_uint a -> in_uint x ->
  uint (x - a) < INPUT_BUF_SIZE -> 0 <= i < uint (x - a) ->
  x mod INPUT_BUF_SIZE <> uint (a + i) mod INPUT_BUF_SIZE.
Proof. intros Ha Hx Hd Hi. uint_arith. Qed.

Lemma slot_end a x :
  in_uint a -> in_uint x -> uint (a + uint (x - a)) = x.
Proof. intros Ha Hx. uint_arith. Qed.

Lemma window_store m m' a c :
  length (buf (cons m)) = Z.to_nat INPUT_BUF_SIZE ->
  in_uint a -> in_uint (e (cons m)) ->
  uint (e (cons m) - a) < INPUT_BUF_SIZE ->
  buf (cons m') = buf (cons (setbuf (e (cons m)) c m)) ->
  window m' a (S (Z.to_nat (uint (e (cons m) - a)))) =
  window m a (Z.to_nat (uint (e (cons m) - a))) ++ [to_char c].
Proof.
  intros Hlen Ha He Hd Hb.
  set (d := Z.to_nat (uint (e (cons m) - a))).
  assert (Hdz : Z.of_nat d = uint (e (cons m) - a)).
  { unfold d. rewrite Z2Nat.id; [reflexivity|]. unfold uint.
    apply Z.mod_pos_bound. reflexivity. }
  replace (S d) with (d + 1)%nat by lia.
  rewrite window_app. f_equal.
  - apply window_ext. intros i Hi.
    rewrite (getbuf_buf m' _ _ Hb), getbuf_store by assumption.
    replace (_ =? _) with false; [reflexivity|].
    symmetry. apply Z.eqb_neq. apply slot_apart; try assumption. lia.
  - unfold window. simpl. rewrite Z.add_0_r.
    rewrite (getbuf_buf m' _ _ Hb), getbuf_store by assumption.
    replace (uint (uint (a + Z.of_nat d))) with (e (cons m)).
    + now rewrite Z.eqb_refl.
    + rewrite Hdz, slot_end by assumption.
      symmetry. unfold uint. apply Z.mod_small. exact He.
Qed.

(** ** The queue after a step of the interrupt handler *)

Lemma committed_fields m1 m2 :
  buf (cons m1) = buf (cons m2) -> r (cons m1) = r (cons m2) ->
  w (cons m1) = w (cons m2) -> committed m1 = committed m2.
Proof. unfold committed. intros Hb -> ->. now apply window_buf. Qed.

Lemma uncommitted_fields m1 m2 :
  buf (cons m1) = buf (cons m2) -> w (cons m1) = w (cons m2) ->
  e (cons m1) = e (cons m2) -> uncommitted m1 = uncommitted m2.
Proof. unfold uncommitted. intros Hb -> ->. now apply window_buf. Qed.

Lemma unread_fields m1 m2 :
  buf (cons m1) = buf (cons m2) -> r (cons m1) = r (cons m2) ->
  e (cons m1) = e (cons m2) -> unread m1 = unread m2.
Proof. unfold unread. intros Hb -> ->. now apply window_buf. Qed.

Lemma uint_to_nat x : Z.of_nat (Z.to_nat (uint x)) = uint x.
Proof.
  apply Z2Nat.id. unfold uint. apply Z.mod_pos_bound. reflexivity.
Qed.

(** The unread bytes are the committed ones followed by the line being
    edited. *)
Lemma unread_split m :
  ring_ok (cons m) -> unread m = committed m ++ uncommitted m.
Proof.
  intros (_ & Hr & Hw & He & Hd). unfold unread, committed, uncommitted.
  replace (Z.to_nat (uint (e (cons m) - r (cons m))))
    with (Z.to_nat (uint (w (cons m) - r (cons m)))
          + Z.to_nat (uint (e (cons m) - w (cons m))))%nat.
  - rewrite window_app, uint_to_nat, slot_end by assumption. reflexivity.
  - apply Nat2Z.inj. rewrite Nat2Z.inj_add, !uint_to_nat. uint_arith.
Qed.

(** Without its last byte, the line being edited is the one of the
    machine with [cons.e] one step back. *)
Lemma uncommitted_last m :
  in_uint (e (cons m)) -> in_uint (w (cons m)) ->
  e (cons m) <> w (cons m) ->
  uncommitted m =
    uncommitted (set_e (uint (e (cons m) - 1)) m)
    ++ [getbuf m (uint (e (cons m) - 1))].
Proof.
  intros He Hw Hew. unfold uncommitted. simpl.
  set (d := Z.to_nat (uint (uint (e (cons m) - 1) - w (cons m)))).
  replace (Z.to_nat (uint (e (cons m) - w (cons m)))) with (d + 1)%nat.
  - rewrite window_app. f_equal. unfold window. simpl.
    rewrite Z.add_0_r. do 2 f_equal. unfold d. rewrite uint_to_nat.
    uint_arith.
  - apply Nat2Z.inj. unfold d. rewrite Nat2Z.inj_add, !uint_to_nat.
    uint_arith.
Qed.

Lemma uncommitted_nil m :
  e (cons m) = w (cons m) -> uncommitted m = [].
Proof. unfold uncommitted. intros ->. now rewrite Z.sub_diag. Qed.

(** The kill-line loop at the level of the queue: the line being
    edited is cut after its last newline (entirely, if it has none),
    one erasure is echoed per byte cut, and nothing else changes. *)
Lemma kill_loop_queue fuel : forall m,
  in_uint (e (cons m)) -> in_uint (w (cons m)) ->
  (Z.to_nat (uint (e (cons m) - w (cons m))) <= fuel)%nat ->
  exists keep erased,
    uncommitted m = keep ++ erased /\
    uncommitted (kill_loop fuel m) = keep /\
    Forall (fun c => c <> chr_NL) erased /\
    (keep = [] \/ exists keep', keep = keep' ++ [chr_NL]) /\
    trace (kill_loop fuel m) = trace m ++ erase_echo (length erased) /\
    buf (cons (kill_loop fuel m)) = buf (cons m) /\
    r (cons (kill_loop fuel m)) = r (cons m) /\
    w (cons (kill_loop fuel m)) = w (cons m).
Proof.
  induction fuel as [|f IH]; intros m He Hw Hfuel.
  - assert (Hew : e (cons m) = w (cons m)) by uint_arith.
    exists [], []. simpl. rewrite (uncommitted_nil m Hew), app_nil_r.
    repeat split; auto; simpl; rewrite ?app_nil_r; auto.
  - simpl.
    destruct (negb (e (cons m) =? w (cons m))) eqn:Hne; simpl.
    + apply negb_true_iff, Z.eqb_neq in Hne.
      pose proof (uncommitted_last m He Hw Hne) as Hlast.
      destruct (negb (getbuf m (uint (e (cons m) - 1)) =? chr_NL)) eqn:Hnl.
      * apply negb_true_iff, Z.eqb_neq in Hnl.
        set (m1 := consputc BACKSPACE (set_e (uint (e (cons m) - 1)) m)).
        assert (Hc1 : cons m1 = cons (set_e (uint (e (cons m) - 1)) m))
          by apply cons_consputc.
        destruct (IH m1) as (keep & erased & Hsplit & Hres & Hall & Hkeep
                              & Htr & Hb & Hr' & Hw');
          rewrite ?Hc1; simpl; try assumption; try uint_arith.
        exists keep, (erased ++ [getbuf m (uint (e (cons m) - 1))]).
        rewrite Hlast.
        rewrite <- (uncommitted_fields m1) by (rewrite Hc1; reflexivity).
        rewrite Hsplit, <- app_assoc.
        split; [reflexivity|]. split; [exact Hres|].
        split; [apply Forall_app; split; [exact Hall|now constructor]|].
        split; [exact Hkeep|].
        rewrite Htr, Hb, Hr', Hw', Hc1. unfold m1.
        rewrite trace_consputc, length_app, Nat.add_1_r. simpl.
        rewrite <- app_assoc. repeat split; reflexivity.
      * apply negb_false_iff, Z.eqb_eq in Hnl.
        exists (uncommitted m), []. rewrite !app_nil_r.
        split; [reflexivity|]. split; [reflexivity|]. split; [constructor|].
        split; [right; rewrite Hlast, Hnl; eauto|].
        simpl. rewrite ?app_nil_r. auto.
    + apply negb_false_iff, Z.eqb_eq in Hne.
      exists [], []. rewrite (uncommitted_nil m Hne), app_nil_r.
      repeat split; auto; simpl; rewrite ?app_nil_r; auto.
Qed.

Lemma committed_take m :
  ring_ok (cons m) ->
  committed m = take (Z.to_nat (uint (w (cons m) - r (cons m)))) (unread m).
Proof.
  intros (_ & Hr & Hw & He & Hd). unfold committed, unread.
  rewrite window_take; [reflexivity|].
  apply Nat2Z.inj_le. rewrite !uint_to_nat. uint_arith.
Qed.

Lemma length_unread m :
  Z.of_nat (length (unread m)) = uint (e (cons m) - r (cons m)).
Proof. unfold unread. now rewrite length_window, uint_to_nat. Qed.

Lemma length_committed m :
  Z.of_nat (length (committed m)) = uint (w (cons m) - r (cons m)).
Proof. unfold committed. now rewrite length_window, uint_to_nat. Qed.

Lemma length_uncommitted m :
  Z.of_nat (length (uncommitted m)) = uint (e (cons m) - w (cons m)).
Proof. unfold uncommitted. now rewrite length_window, uint_to_nat. Qed.

(** An accepted character at the level of the queue. *)
Lemma accept_queue c m :
  ring_ok (cons m) -> ordinary c = true -> c <> 0 ->
  uint (e (cons m) - r (cons m)) < INPUT_BUF_SIZE ->
  let b := to_char (normalize c) in
  let m' := consoleintr c m in
  unread m' = unread m ++ [b] /\
  if commits_after (normalize c) m
  then committed m' = unread m ++ [b] /\ uncommitted m' = []
  else committed m' = committed m /\ uncommitted m' = uncommitted m ++ [b].
Proof.
  intros Hok Hord Hc Hroom b m'.
  destruct (accept_effect c m Hord Hc Hroom) as (_ & Hb & Hr' & He' & Hw').
  fold m' in Hb, Hr', He', Hw'.
  pose proof Hok as (Hlen & Hr & Hw & He & Hd).
  assert (Hbuf : buf (cons m') = buf (cons (setbuf (e (cons m)) (normalize c) m)))
    by (rewrite Hb; reflexivity).
  assert (Hunread : unread m' = unread m ++ [b]).
  { unfold unread. rewrite Hr', He'.
    replace (Z.to_nat (uint (uint (e (cons m) + 1) - r (cons m))))
      with (S (Z.to_nat (uint (e (cons m) - r (cons m))))).
    - now apply window_store.
    - apply Nat2Z.inj. rewrite Nat2Z.inj_succ, !uint_to_nat. uint_arith. }
  split; [exact Hunread|].
  destruct (commits_after (normalize c) m).
  - split.
    + rewrite <- Hunread. unfold committed, unread. now rewrite Hw', He'.
    + apply uncommitted_nil. congruence.
  - split.
    + rewrite (committed_take m') by (now apply consoleintr_ring_ok).
      rewrite Hunread, Hw', Hr', take_app_le.
      * symmetry. now apply committed_take.
      * apply Nat2Z.inj_le. rewrite uint_to_nat, length_unread. uint_arith.
    + unfold uncommitted. rewrite Hw', He'.
      replace (Z.to_nat (uint (uint (e (cons m) + 1) - w (cons m))))
        with (S (Z.to_nat (uint (e (cons m) - w (cons m))))).
      * apply window_store; try assumption. uint_arith.
      * apply Nat2Z.inj. rewrite Nat2Z.inj_succ, !uint_to_nat. uint_arith.
Qed.

(** Backspace and Delete at the level of the queue. *)
Lemma backspace_queue c m :
  ring_ok (cons m) -> c = C chr_H \/ c = chr_DEL ->
  let m' := consoleintr c m in
  uncommitted m' = removelast (uncommitted m) /\
  committed m' = committed m /\
  trace m' = trace m ++ match uncommitted m with
                        | [] => []
                        | _ :: _ => echo BACKSPACE
                        end.
Proof.
  intros (_ & Hr & Hw & He & Hd) Hc m'.
  assert (Hrun : m' = if negb (e (cons m) =? w (cons m))
                      then consputc BACKSPACE (set_e (uint (e (cons m) - 1)) m)
                      else m).
  { unfold m'. destruct Hc as [-> | ->]; reflexivity. }
  rewrite Hrun. destruct (e (cons m) =? w (cons m)) eqn:Hew; simpl negb; cbv iota.
  - apply Z.eqb_eq in Hew. rewrite (uncommitted_nil m Hew). simpl.
    rewrite app_nil_r. auto.
  - apply Z.eqb_neq in Hew.
    rewrite (uncommitted_last m He Hw Hew), removelast_last.
    split; [|split].
    + apply uncommitted_fields; rewrite cons_consputc; reflexivity.
    + apply committed_fields; rewrite cons_consputc; reflexivity.
    + rewrite trace_consputc. simpl trace.
      destruct (uncommitted (set_e (uint (e (cons m) - 1)) m)); reflexivity.
Qed.

(** Ctrl-U at the level of the queue. *)
Lemma kill_queue m :
  ring_ok (cons m) ->
  let m' := consoleintr (C chr_U) m in
  exists keep erased,
    uncommitted m = keep ++ erased /\
    uncommitted m' = keep /\
    Forall (fun c => c <> chr_NL) erased /\
    (keep = [] \/ exists keep', keep = keep' ++ [chr_NL]) /\
    trace m' = trace m ++ erase_echo (length erased) /\
    committed m' = committed m.
Proof.
  intros (_ & Hr & Hw & He & Hd) m'.
  assert (Hrun : m' = kill_loop (Z.to_nat (uint (e (cons m) - w (cons m)))) m)
    by reflexivity.
  destruct (kill_loop_queue (Z.to_nat (uint (e (cons m) - w (cons m)))) m
              He Hw ltac:(lia))
    as (keep & erased & Hsplit & Hres & Hall & Hkeep & Htr & Hb & Hr' & Hw').
  rewrite <- Hrun in *.
  exists keep, erased. repeat split; try assumption.
  now apply committed_fields.
Qed.

(** The kill-line loop stores nothing and moves neither [cons.r] nor
    [cons.w]; all it sends to the uart are erasures. *)
Lemma kill_loop_frame fuel : forall m,
  exists k : nat,
    trace (kill_loop fuel m) = trace m ++ erase_echo k /\
    buf (cons (kill_loop fuel m)) = buf (cons m) /\
    r (cons (kill_loop fuel m)) = r (cons m) /\
    w (cons (kill_loop fuel m)) = w (cons m).
Proof.
  induction fuel as [|f IH]; intros m; simpl.
  - exists O. simpl. rewrite app_nil_r. auto.
  - destruct (negb (e (cons m) =? w (cons m))
              && negb (getbuf m (uint (e (cons m) - 1)) =? chr_NL)).
    + destruct (IH (consputc BACKSPACE (set_e (uint (e (cons m) - 1)) m)))
        as (k & Htr & Hb & Hr & Hw).
      exists (S k). rewrite Htr, Hb, Hr, Hw, cons_consputc, trace_consputc.
      simpl. rewrite <- app_assoc. auto.
    + exists O. simpl. rewrite app_nil_r. auto.
Qed.

Lemma wakeups_erase_echo k : wakeups (erase_echo k) = O.
Proof.
  induction k as [|k IH]; [reflexivity|].
  simpl. exact IH.
Qed.

(** The keys the switch handles itself. *)
Lemma not_ordinary c :
  ordinary c = false ->
  c = C chr_P \/ c = C chr_U \/ c = C chr_H \/ c = chr_DEL.
Proof.
  unfold ordinary. intros H. apply negb_false_iff in H.
  repeat (apply orb_true_iff in H as [H|H]); apply Z.eqb_eq in H; auto.
Qed.

Lemma control_frame c m :
  ordinary c = false ->
  exists evs,
    trace (consoleintr c m) = trace m ++ evs /\ wakeups evs = O /\
    buf (cons (consoleintr c m)) = buf (cons m) /\
    r (cons (consoleintr c m)) = r (cons m) /\
    w (cons (consoleintr c m)) = w (cons m).
Proof.
  intros Hc. apply not_ordinary in Hc as [-> | [-> | Hc]].
  - exists [EvProcdump]. repeat split; reflexivity.
  - destruct (kill_loop_frame (Z.to_nat (uint (e (cons m) - w (cons m)))) m)
      as (k & Htr & Hb & Hr & Hw).
    exists (erase_echo k). split; [exact Htr|].
    split; [apply wakeups_erase_echo|]. auto.
  - assert (Hrun : consoleintr c m =
                   if negb (e (cons m) =? w (cons m))
                   then consputc BACKSPACE (set_e (uint (e (cons m) - 1)) m)
                   else m)
      by (destruct Hc as [-> | ->]; reflexivity).
    rewrite Hrun. destruct (negb (e (cons m) =? w (cons m))).
    + exists (echo BACKSPACE). rewrite trace_consputc, cons_consputc.
      repeat split; reflexivity.
    + exists []. rewrite app_nil_r. repeat split; reflexivity.
Qed.

(** ** The reader leaves the producer's side alone *)

Lemma read_loop_frame killed copyout fuel : forall user_dst dst n target m m' o,
  read_loop killed copyout fuel user_dst dst n target m = Some (m', o) ->
  buf (cons m') = buf (cons m) /\
  w (cons m') = w (cons m) /\ e (cons m') = e (cons m) /\
  exists evs, trace m' = trace m ++ evs /\ uart_bytes evs = [] /\ wakeups evs = O.
Proof.
  assert (Hsame : forall m : machine,
            buf (cons m) = buf (cons m) /\
            w (cons m) = w (cons m) /\ e (cons m) = e (cons m) /\
            exists evs, trace m = trace m ++ evs /\ uart_bytes evs = []
                        /\ wakeups evs = O).
  { intros m. repeat split. exists []. now rewrite app_nil_r. }
  induction fuel as [|k IH]; intros user_dst dst n target m m' o Hrun;
    simpl in Hrun; destruct (n <=? 0); try discriminate;
    try (injection Hrun as <- _; apply Hsame).
  unfold read_body in Hrun.
  destruct (r (cons m) =? w (cons m)).
  { destruct killed; injection Hrun as <- _; apply Hsame. }
  destruct (getbuf m (r (cons m)) =? C chr_D).
  { injection Hrun as <- _. destruct (uint n <? target); simpl;
      repeat split; exists []; now rewrite app_nil_r. }
  destruct (negb (copyout user_dst dst)).
  { injection Hrun as <- _. simpl. repeat split. eexists. split; [reflexivity|].
    auto. }
  destruct (getbuf m (r (cons m)) =? chr_NL).
  { injection Hrun as <- _. simpl. repeat split. eexists. split; [reflexivity|].
    auto. }
  apply IH in Hrun as (Hb & Hw & He & evs & Ht & Hu & Hk). simpl in *.
  repeat split; try assumption.
  exists (EvCopyout user_dst dst (getbuf m (r (cons m))) :: evs).
  rewrite Ht, <- app_assoc. auto.
Qed.

Lemma read_loop_only_copies killed copyout fuel : forall user_dst dst n target m m' o,
  read_loop killed copyout fuel user_dst dst n target m = Some (m', o) ->
  exists evs, trace m' = trace m ++ evs /\ Forall copy_event evs.
Proof.
  assert (Hnone : forall m : machine,
            exists evs, trace m = trace m ++ evs /\ Forall copy_event evs).
  { intros m. exists []. rewrite app_nil_r. split; [reflexivity|constructor]. }
  induction fuel as [|k IH]; intros user_dst dst n target m m' o Hrun;
    simpl in Hrun; destruct (n <=? 0); try discriminate;
    try (injection Hrun as <- _; apply Hnone).
  unfold read_body in Hrun.
  destruct (r (cons m) =? w (cons m)).
  { destruct killed; injection Hrun as <- _; apply Hnone. }
  destruct (getbuf m (r (cons m)) =? C chr_D).
  { injection Hrun as <- _. exists []. rewrite app_nil_r.
    split; [destruct (uint n <? target); reflexivity|constructor]. }
  destruct (negb (copyout user_dst dst)).
  { injection Hrun as <- _. eexists. split; [reflexivity|].
    constructor; [exact I|constructor]. }
  destruct (getbuf m (r (cons m)) =? chr_NL).
  { injection Hrun as <- _. eexists. split; [reflexivity|].
    constructor; [exact I|constructor]. }
  apply IH in Hrun as (evs & Ht & Hall). simpl in Ht.
  exists (EvCopyout user_dst dst (getbuf m (r (cons m))) :: evs).
  split; [rewrite Ht, <- app_assoc; reflexivity|].
  constructor; [exact I|exact Hall].
Qed.

(** X3: one run of [consoleread] never writes the buffer, never moves
    [cons.w] or [cons.e], and all it adds to the trace are the outcomes
    of its copies ([EvCopyout], [EvCopyFail]): it sends nothing to the
    uart, stores nothing, dumps no process list and wakes nobody. *)
Theorem consoleread_frame killed copyout user_dst dst n m m' o :
  consoleread killed copyout user_dst dst n m = Some (m', o) ->
  buf (cons m') = buf (cons m) /\
  w (cons m') = w (cons m) /\ e (cons m') = e (cons m) /\
  exists evs, trace m' = trace m ++ evs /\ Forall copy_event evs /\
              uart_bytes evs = [] /\ wakeups evs = O.
Proof.
  intros Hrun.
  destruct (read_loop_frame _ _ _ _ _ _ _ _ _ _ Hrun)
    as (Hb & Hw & He & evs & Ht & Hu & Hk).
  destruct (read_loop_only_copies _ _ _ _ _ _ _ _ _ _ Hrun)
    as (evs' & Ht' & Hall).
  rewrite Ht in Ht'. apply app_inv_head in Ht'. subst evs'.
  repeat split; try assumption. exists evs. auto.
Qed.

Lemma consoleread_frame_witness :
  exists m' o,
    consoleread false copy_always 1 4096 10 (pushes [97; 10; 98] machine_init)
      = Some (m', o) /\
    w (cons m') = 2 /\ e (cons m') = 3.
Proof.
  destruct (consoleread_total false copy_always 1 4096 10
              (pushes [97; 10; 98] machine_init)) as (m' & o & Hrun).
  exists m', o. split; [exact Hrun|].
  destruct (consoleread_frame false copy_always 1 4096 10 _ _ _ Hrun)
    as (_ & Hw & He & _).
  rewrite Hw, He. split; reflexivity.
Defined.

(** ** Commit and wakeup *)

(** X4: whatever the character, [consoleintr] either leaves [cons.w]
    alone and wakes nobody, or sets [cons.w = cons.e] and calls
    [wakeup] once, as its last action: new bytes never become visible
    to the reader without a wakeup, and there is no wakeup without a
    commit. *)
Theorem commit_iff_wakeup c m :
  exists evs,
    trace (consoleintr c m) = trace m ++ evs /\
    ((wakeups evs = O /\ w (cons (consoleintr c m)) = w (cons m)) \/
     (wakeups evs = 1%nat /\
      w (cons (consoleintr c m)) = e (cons (consoleintr c m)) /\
      exists evs0, evs = evs0 ++ [EvWakeup])).
Proof.
  destruct (ordinary c) eqn:Hord.
  - destruct (Z.eq_dec c 0) as [Hc|Hc];
      [|destruct (Z_lt_dec (uint (e (cons m) - r (cons m))) INPUT_BUF_SIZE)
         as [Hroom|Hfull]].
    + exists []. rewrite consoleintr_drop, app_nil_r by auto. auto.
    + destruct (accept_effect c m Hord Hc Hroom) as (Ht & _ & _ & He & Hw).
      eexists. split; [exact Ht|].
      destruct (commits_after (normalize c) m).
      * right. rewrite wakeups_app, wakeups_echo, Hw, He.
        split; [reflexivity|]. split; [reflexivity|].
        exists (echo (normalize c)
                ++ [EvStore (e (cons m) mod INPUT_BUF_SIZE)
                            (to_char (normalize c))]).
        rewrite <- app_assoc. reflexivity.
      * left. rewrite wakeups_app, wakeups_echo. auto.
    + exists []. rewrite consoleintr_drop, app_nil_r by (auto; right; lia). auto.
  - destruct (control_frame c m Hord) as (evs & Ht & Hk & _ & _ & Hw).
    exists evs. auto.
Qed.

(** ** The interrupt handler and the committed bytes *)

(** X5: [consoleintr] never moves [cons.r] and never changes or
    removes a committed byte: after it, the committed bytes are those
    of before, possibly followed by newly committed ones. *)
Theorem committed_preserved c m :
  ring_ok (cons m) ->
  r (cons (consoleintr c m)) = r (cons m) /\
  exists more, committed (consoleintr c m) = committed m ++ more.
Proof.
  intros Hok. destruct (ordinary c) eqn:Hord.
  - destruct (Z.eq_dec c 0) as [Hc|Hc];
      [|destruct (Z_lt_dec (uint (e (cons m) - r (cons m))) INPUT_BUF_SIZE)
         as [Hroom|Hfull]].
    + rewrite consoleintr_drop by auto. split; [reflexivity|].
      exists []. now rewrite app_nil_r.
    + destruct (accept_effect c m Hord Hc Hroom) as (_ & _ & Hr & _).
      split; [exact Hr|].
      destruct (accept_queue c m Hok Hord Hc Hroom) as (_ & Hq).
      destruct (commits_after (normalize c) m).
      * destruct Hq as (Hcm & _). rewrite Hcm, (unread_split m Hok).
        rewrite <- app_assoc. eauto.
      * destruct Hq as (Hcm & _). rewrite Hcm. exists []. now rewrite app_nil_r.
    + rewrite consoleintr_drop by (auto; right; lia). split; [reflexivity|].
      exists []. now rewrite app_nil_r.
  - destruct (control_frame c m Hord) as (_ & _ & _ & Hb & Hr & Hw).
    split; [exact Hr|]. exists []. rewrite app_nil_r.
    now apply committed_fields.
Qed.

Lemma committed_preserved_witness :
  exists more,
    committed (consoleintr 10 (pushes [97; 10; 98] machine_init))
      = committed (pushes [97; 10; 98] machine_init) ++ more.
Proof.
  apply (committed_preserved 10 (pushes [97; 10; 98] machine_init)).
  apply reachable_ring_ok.
  apply (reach_intr 98 (consoleintr 10 (consoleintr 97 machine_init))).
  apply reach_intr. apply reach_intr. apply reach_init.
Defined.

(** ** With bytes for input, no newline waits uncommitted *)

Lemma Forall_removelast {A} (P : A -> Prop) (l : list A) :
  Forall P l -> Forall P (removelast l).
Proof.
  induction 1 as [|x l Hx Hl IH]; [constructor|].
  simpl. destruct l; [constructor|]. constructor; assumption.
Qed.

Lemma byte_reachable_inline m :
  byte_reachable m -> ring_ok (cons m) /\ Forall inline (uncommitted m).
Proof.
  induction 1 as [| c m Hc _ [Hok IH] | k cp u d n m m' o _ [Hok IH] Hrun
                  | k cp u d n t m m' o _ [Hok IH] Hrun].
  - split; [exact ring_ok_init|]. constructor.
  - split; [now apply consoleintr_ring_ok|].
    destruct (ordinary c) eqn:Hord.
    + destruct (Z.eq_dec c 0) as [Hz|Hz];
        [|destruct (Z_lt_dec (uint (e (cons m) - r (cons m))) INPUT_BUF_SIZE)
           as [Hroom|Hfull]].
      * now rewrite consoleintr_drop by auto.
      * destruct (accept_queue c m Hok Hord Hz Hroom) as (_ & Hq).
        destruct (commits_after (normalize c) m) eqn:Hcommit.
        -- destruct Hq as (_ & ->). constructor.
        -- destruct Hq as (_ & ->). apply Forall_app. split; [exact IH|].
           constructor; [|constructor].
           unfold commits_after in Hcommit.
           apply orb_false_iff in Hcommit as [Hcommit _].
           apply orb_false_iff in Hcommit as [Hnl Heof].
           apply Z.eqb_neq in Hnl, Heof.
           assert (Hb : to_char (normalize c) = normalize c).
           { unfold to_char, normalize, chr_CR, chr_NL.
             destruct (c =? 13); apply Z.mod_small; lia. }
           rewrite Hb. now split.
      * now rewrite consoleintr_drop by (auto; right; lia).
    + apply not_ordinary in Hord as [-> | [-> | Hbs]].
      * exact IH.
      * destruct (kill_queue m Hok) as (keep & erased & Hsplit & -> & _).
        rewrite Hsplit in IH. now apply Forall_app in IH as [IH _].
      * destruct (backspace_queue c m Hok Hbs) as (-> & _).
        now apply Forall_removelast.
  - split; [eapply read_loop_ring_ok; eassumption|].
    apply read_loop_frame in Hrun as (Hb & Hw & He & _).
    now rewrite (uncommitted_fields m' m).
  - split; [eapply read_loop_ring_ok; eassumption|].
    apply read_loop_frame in Hrun as (Hb & Hw & He & _).
    now rewrite (uncommitted_fields m' m).
Qed.

(** X6: when [consoleintr] is only given bytes (0..255), no newline
    and no end-of-file marker is ever left uncommitted: the bytes
    between [cons.w] and [cons.e] are all other characters. *)
Theorem uncommitted_has_no_newline m :
  byte_reachable m -> Forall inline (uncommitted m).
Proof. intros Hreach. now apply byte_reachable_inline. Qed.

Lemma uncommitted_has_no_newline_witness :
  Forall inline (uncommitted (pushes [97; 10; 98; 99] machine_init)).
Proof.
  apply uncommitted_has_no_newline.
  apply (breach_intr 99 (pushes [97; 10; 98] machine_init)); [lia|].
  apply (breach_intr 98 (pushes [97; 10] machine_init)); [lia|].
  apply (breach_intr 10 (pushes [97] machine_init)); [lia|].
  apply (breach_intr 97 machine_init); [lia|]. apply breach_init.
Defined.

(** X7: so, with bytes for input, Ctrl-U always erases the whole line
    being edited: afterwards nothing is uncommitted, [cons.e] equals
    [cons.w], the committed bytes are untouched and one erasure was
    echoed per byte of the line. *)
Theorem kill_line_erases_line m :
  byte_reachable m ->
  let m' := consoleintr (C chr_U) m in
  uncommitted m' = [] /\
  e (cons m') = w (cons m') /\
  committed m' = committed m /\
  trace m' = trace m ++ erase_echo (length (uncommitted m)).
Proof.
  intros Hreach m'.
  destruct (byte_reachable_inline m Hreach) as (Hok & Hin).
  destruct (kill_queue m Hok)
    as (keep & erased & Hsplit & Hres & _ & Hkeep & Htr & Hcm).
  fold m' in Hres, Htr, Hcm.
  assert (Hnil : keep = []).
  { destruct Hkeep as [Hnil | (keep' & ->)]; [exact Hnil|].
    rewrite Hsplit in Hin.
    apply Forall_app in Hin as [Hin _]. apply Forall_app in Hin as [_ Hin].
    inversion Hin as [|? ? [Hnl _] _]. now contradiction Hnl. }
  rewrite Hnil in Hsplit, Hres. simpl in Hsplit. rewrite Hsplit.
  split; [exact Hres|]. split; [|split; assumption].
  assert (Hok' : ring_ok (cons m')) by (now apply consoleintr_ring_ok).
  pose proof (length_uncommitted m') as Hlen. rewrite Hres in Hlen.
  destruct Hok' as (_ & _ & Hw & He & _). simpl in Hlen. uint_arith.
Qed.

Lemma kill_line_erases_line_witness :
  uncommitted (consoleintr (C chr_U) (pushes [97; 10; 98; 99] machine_init)) = [].
Proof.
  apply (kill_line_erases_line (pushes [97; 10; 98; 99] machine_init)).
  apply (breach_intr 99 (pushes [97; 10; 98] machine_init)); [lia|].
  apply (breach_intr 98 (pushes [97; 10] machine_init)); [lia|].
  apply (breach_intr 10 (pushes [97] machine_init)); [lia|].
  apply (breach_intr 97 machine_init); [lia|]. apply breach_init.
Defined.

(** ** Line editing as list editing *)











(** ** What a reader gets from the committed bytes *)

(** X10: [consoleread] with [n <= 0] returns 0 at once, whatever the
    state of the ring and even for a killed process, and changes
    nothing. *)
Theorem consoleread_nonpositive killed copyout user_dst dst n m :
  n <= 0 ->
  consoleread killed copyout user_dst dst n m = Some (m, Returned 0).
Proof.
  intros Hn. unfold consoleread.
  replace (Z.to_nat n) with O by lia. simpl.
  replace (n <=? 0) with true by (symmetry; now apply Z.leb_le).
  unfold read_ret. now rewrite Z.sub_diag.
Qed.

Lemma consoleread_nonpositive_witness :
  consoleread true copy_never 1 4096 (-5) machine_init
    = Some (machine_init, Returned 0).
Proof. apply consoleread_nonpositive. lia. Defined.

Lemma committed_pop m :
  in_uint (r (cons m)) -> in_uint (w (cons m)) ->
  r (cons m) <> w (cons m) ->
  committed m =
    getbuf m (r (cons m)) :: committed (set_r (uint (r (cons m) + 1)) m).
Proof.
  intros Hr Hw Hrw. unfold committed. simpl.
  set (d := Z.to_nat (uint (w (cons m) - uint (r (cons m) + 1)))).
  replace (Z.to_nat (uint (w (cons m) - r (cons m)))) with (1 + d)%nat.
  - rewrite window_app. unfold window at 1. simpl.
    rewrite Z.add_0_r. f_equal; try (now apply window_buf).
    f_equal. unfold uint. apply Z.mod_small. exact Hr.
  - apply Nat2Z.inj. unfold d. rewrite Nat2Z.inj_add, !uint_to_nat. uint_arith.
Qed.

Lemma in_uint_uint x : in_uint (uint x).
Proof. unfold in_uint, uint. apply Z.mod_pos_bound. reflexivity. Qed.

Lemma committed_nonempty m :
  in_uint (r (cons m)) -> in_uint (w (cons m)) ->
  committed m <> [] -> r (cons m) <> w (cons m).
Proof.
  intros Hr Hw Hne Heq. apply Hne. unfold committed.
  now rewrite Heq, Z.sub_diag.
Qed.

Lemma visible_committed l : forall m rest,
  in_uint (r (cons m)) -> in_uint (w (cons m)) ->
  committed m = l ++ rest -> visible l m.
Proof.
  induction l as [|c l IH]; intros m rest Hr Hw Hcm; simpl; [trivial|].
  assert (Hrw : r (cons m) <> w (cons m)).
  { apply committed_nonempty; try assumption. now rewrite Hcm. }
  rewrite (committed_pop m Hr Hw Hrw) in Hcm. simpl in Hcm.
  injection Hcm as Hc Hcm.
  split; [exact Hrw|]. split; [exact Hc|].
  apply (IH _ rest); simpl; [apply in_uint_uint|exact Hw|exact Hcm].
Qed.

Lemma committed_drain user_dst l : forall dst m rest,
  in_uint (r (cons m)) -> in_uint (w (cons m)) ->
  committed m = l ++ rest ->
  committed (drain user_dst dst l m) = rest /\
  in_uint (r (cons (drain user_dst dst l m))) /\
  in_uint (w (cons (drain user_dst dst l m))).
Proof.
  induction l as [|c l IH]; intros dst m rest Hr Hw Hcm; simpl; [auto|].
  assert (Hrw : r (cons m) <> w (cons m)).
  { apply committed_nonempty; try assumption. now rewrite Hcm. }
  rewrite (committed_pop m Hr Hw Hrw) in Hcm. simpl in Hcm.
  injection Hcm as Hc Hcm.
  apply IH; simpl; [apply in_uint_uint|exact Hw|].
  rewrite <- Hcm. now apply committed_fields.
Qed.

Lemma drain_app user_dst l1 l2 : forall dst m,
  drain user_dst dst (l1 ++ l2) m =
  drain user_dst (dst_after (length l1) dst) l2 (drain user_dst dst l1 m).
Proof.
  induction l1 as [|c l1 IH]; intros dst m; simpl; [reflexivity|].
  now rewrite IH.
Qed.

Lemma copy_ok_app copyout user_dst l1 l2 : forall dst,
  copy_ok copyout user_dst dst (l1 ++ l2) ->
  copy_ok copyout user_dst dst l1 /\
  copy_ok copyout user_dst (dst_after (length l1) dst) l2.
Proof.
  induction l1 as [|c l1 IH]; intros dst Hc; simpl in *; [auto|].
  destruct Hc as (Hc & Hrest). apply IH in Hrest as (H1 & H2). auto.
Qed.

(** The reader after it has copied out the bytes [l] that head the
    committed bytes. *)
Lemma read_prefix killed copyout user_dst dst n target m l rest fuel :
  ring_ok (cons m) -> committed m = l ++ rest ->
  Forall inline l -> copy_ok copyout user_dst dst l ->
  Z.of_nat (length l) <= n ->
  read_loop killed copyout (length l + fuel) user_dst dst n target m =
  read_loop killed copyout fuel user_dst (dst_after (length l) dst)
    (n - Z.of_nat (length l)) target (drain user_dst dst l m).
Proof.
  intros (_ & Hr & Hw & _) Hcm Hin Hcopy Hn.
  apply read_loop_drain; try assumption.
  now apply (visible_committed l m rest).
Qed.

(** Reading the line that heads the committed bytes. *)
Lemma read_line killed copyout user_dst dst n m l rest :
  ring_ok (cons m) -> committed m = l ++ chr_NL :: rest ->
  Forall inline l -> copy_ok copyout user_dst dst (l ++ [chr_NL]) ->
  Z.of_nat (length l) + 1 <= n <= INT_MAX ->
  exists m',
    consoleread killed copyout user_dst dst n m
      = Some (m', Returned (Z.of_nat (length l) + 1)) /\
    trace m' = trace m ++ copy_events user_dst dst (l ++ [chr_NL]) /\
    committed m' = rest.
Proof.
  intros Hok Hcm Hin Hcopy Hn.
  apply copy_ok_app in Hcopy as (Hcopy & Hcnl & _).
  pose proof Hok as (_ & Hr & Hw & _).
  destruct (committed_drain user_dst l dst m _ Hr Hw Hcm) as (Hcm2 & Hr2 & Hw2).
  set (m2 := drain user_dst dst l m) in *.
  assert (Hrw2 : r (cons m2) <> w (cons m2)).
  { apply committed_nonempty; try assumption. now rewrite Hcm2. }
  pose proof (committed_pop m2 Hr2 Hw2 Hrw2) as Hpop.
  rewrite Hcm2 in Hpop. injection Hpop as Hget Hrest.
  unfold consoleread.
  replace (Z.to_nat n)
    with (length l + S (Z.to_nat (n - Z.of_nat (length l) - 1)))%nat by lia.
  rewrite (read_prefix killed copyout user_dst dst n (uint n) m l
             (chr_NL :: rest)) by (assumption || lia).
  fold m2. rewrite read_loop_step by lia.
  rewrite read_body_deliver; [|exact Hrw2|rewrite <- Hget; discriminate|exact Hcnl].
  cbn zeta. rewrite <- Hget. change (chr_NL =? chr_NL) with true. cbv iota.
  replace (n - Z.of_nat (length l) - 1) with (n - (Z.of_nat (length l) + 1)) by lia.
  rewrite read_ret_count by lia.
  eexists. split; [reflexivity|]. split.
  - simpl trace. unfold m2. rewrite trace_drain_events.
    rewrite <- app_assoc. f_equal.
    clear. revert dst. induction l as [|c l IH]; intros dst; simpl; [reflexivity|].
    now rewrite IH.
  - rewrite Hrest. now apply committed_fields.
Qed.

(** X11: when the committed bytes start with a line ([l], free of
    newline and end-of-file marker, then a newline), a read of at
    least that many bytes returns the length of the line, newline
    included, having copied out exactly the line; the rest stays
    committed for the next call. *)
Theorem read_first_line killed copyout user_dst dst n m l rest :
  ring_ok (cons m) -> committed m = l ++ chr_NL :: rest ->
  Forall inline l -> copy_ok copyout user_dst dst (l ++ [chr_NL]) ->
  Z.of_nat (length l) + 1 <= n <= INT_MAX ->
  exists m',
    consoleread killed copyout user_dst dst n m
      = Some (m', Returned (Z.of_nat (length l) + 1)) /\
    trace m' = trace m ++ copy_events user_dst dst (l ++ [chr_NL]) /\
    committed m' = rest.
Proof. apply read_line. Qed.

Lemma read_first_line_witness :
  exists m',
    consoleread false copy_always 1 4096 10
      (pushes [97; 98; 10; 99; 10] machine_init) = Some (m', Returned 3) /\
    committed m' = [99; 10].
Proof.
  destruct (read_first_line false copy_always 1 4096 10
              (pushes [97; 98; 10; 99; 10] machine_init) [97; 98] [99; 10])
    as (m' & Hrun & _ & Hcm).
  - apply reachable_ring_ok.
    apply (reach_intr 10 (pushes [97; 98; 10; 99] machine_init)).
    apply (reach_intr 99 (pushes [97; 98; 10] machine_init)).
    apply (reach_intr 10 (pushes [97; 98] machine_init)).
    apply (reach_intr 98 (pushes [97] machine_init)).
    apply (reach_intr 97 machine_init). apply reach_init.
  - reflexivity.
  - repeat constructor; discriminate.
  - simpl. auto.
  - unfold INT_MAX. simpl. lia.
  - exists m'. split; assumption.
Defined.

(** X12: when the committed bytes start with [l] (free of newline and
    marker) followed by the end-of-file marker, a read of more than
    [length l] bytes copies out [l] and returns its length; if [l] is
    empty the marker is consumed (a read of 0 bytes), otherwise the
    marker stays committed and the next read finds it first. *)
Theorem read_until_eof killed copyout user_dst dst n m l rest :
  ring_ok (cons m) -> committed m = l ++ C chr_D :: rest ->
  Forall inline l -> copy_ok copyout user_dst dst l ->
  Z.of_nat (length l) < n <= INT_MAX ->
  exists m',
    consoleread killed copyout user_dst dst n m
      = Some (m', Returned (Z.of_nat (length l))) /\
    trace m' = trace m ++ copy_events user_dst dst l /\
    committed m' = match l with
                   | [] => rest
                   | _ :: _ => C chr_D :: rest
                   end.
Proof.
  intros Hok Hcm Hin Hcopy Hn.
  pose proof Hok as (_ & Hr & Hw & _).
  destruct (committed_drain user_dst l dst m _ Hr Hw Hcm) as (Hcm2 & Hr2 & Hw2).
  set (m2 := drain user_dst dst l m) in *.
  assert (Hrw2 : r (cons m2) <> w (cons m2)).
  { apply committed_nonempty; try assumption. now rewrite Hcm2. }
  pose proof (committed_pop m2 Hr2 Hw2 Hrw2) as Hpop.
  rewrite Hcm2 in Hpop. injection Hpop as Hget Hrest.
  unfold consoleread.
  replace (Z.to_nat n)
    with (length l + S (Z.to_nat (n - Z.of_nat (length l) - 1)))%nat by lia.
  rewrite (read_prefix killed copyout user_dst dst n (uint n) m l
             (C chr_D :: rest)) by (assumption || lia).
  fold m2. rewrite read_loop_step by lia.
  rewrite read_body_eof; [|exact Hrw2|now rewrite <- Hget].
  rewrite read_ret_count by lia.
  eexists. split; [reflexivity|]. split.
  - replace (trace _) with (trace m2)
      by (destruct (uint (n - Z.of_nat (length l)) <? uint n); reflexivity).
    apply trace_drain_events.
  - destruct l as [|c l].
    + simpl length. rewrite Z.sub_0_r, Z.ltb_irrefl, Hrest.
      now apply committed_fields.
    + replace (uint (n - Z.of_nat (length (c :: l))) <? uint n) with true.
      * rewrite <- Hcm2. apply committed_fields; simpl; try reflexivity.
        unfold in_uint in Hr2. uint_arith.
      * symmetry. apply Z.ltb_lt. cbn [length] in *.
        unfold uint, UINT_MOD, INT_MAX in *.
        rewrite !Z.mod_small by lia. lia.
Qed.

Lemma read_until_eof_witness :
  exists m',
    consoleread false copy_always 1 4096 10
      (pushes [97; 4; 98; 10] machine_init) = Some (m', Returned 1) /\
    committed m' = [4; 98; 10].
Proof.
  destruct (read_until_eof false copy_always 1 4096 10
              (pushes [97; 4; 98; 10] machine_init) [97] [98; 10])
    as (m' & Hrun & _ & Hcm).
  - apply reachable_ring_ok.
    apply (reach_intr 10 (pushes [97; 4; 98] machine_init)).
    apply (reach_intr 98 (pushes [97; 4] machine_init)).
    apply (reach_intr 4 (pushes [97] machine_init)).
    apply (reach_intr 97 machine_init). apply reach_init.
  - reflexivity.
  - repeat constructor; discriminate.
  - simpl. auto.
  - unfold INT_MAX. simpl. lia.
  - exists m'. split; assumption.
Defined.

(** X13: a read of exactly as many bytes as a newline-free,
    marker-free head [l] of the committed bytes returns [length l]
    with [l] copied out, without waiting for the end of the line. *)
Theorem read_short killed copyout user_dst dst m l rest :
  ring_ok (cons m) -> committed m = l ++ rest ->
  Forall inline l -> copy_ok copyout user_dst dst l ->
  Z.of_nat (length l) <= INT_MAX ->
  exists m',
    consoleread killed copyout user_dst dst (Z.of_nat (length l)) m
      = Some (m', Returned (Z.of_nat (length l))) /\
    trace m' = trace m ++ copy_events user_dst dst l /\
    committed m' = rest.
Proof.
  intros Hok Hcm Hin Hcopy Hn.
  pose proof Hok as (_ & Hr & Hw & _).
  destruct (committed_drain user_dst l dst m _ Hr Hw Hcm) as (Hcm2 & _).
  unfold consoleread. rewrite Nat2Z.id.
  pose proof (read_prefix killed copyout user_dst dst (Z.of_nat (length l))
                (uint (Z.of_nat (length l))) m l rest O
                Hok Hcm Hin Hcopy ltac:(lia)) as Hrun.
  rewrite Nat.add_0_r in Hrun. rewrite Hrun.
  rewrite Z.sub_diag, read_loop_done.
  pose proof (read_ret_count (Z.of_nat (length l)) (Z.of_nat (length l))
                ltac:(lia) Hn) as Hret.
  rewrite Z.sub_diag in Hret. rewrite Hret.
  eexists. split; [reflexivity|]. split; [apply trace_drain_events|exact Hcm2].
Qed.

Lemma read_short_witness :
  exists m',
    consoleread false copy_always 1 4096 (Z.of_nat (length [97; 98]))
      (pushes [97; 98; 99; 10] machine_init)
      = Some (m', Returned (Z.of_nat (length [97; 98]))) /\
    committed m' = [99; 10].
Proof.
  destruct (read_short false copy_always 1 4096
              (pushes [97; 98; 99; 10] machine_init) [97; 98] [99; 10])
    as (m' & Hrun & _ & Hcm).
  - apply reachable_ring_ok.
    apply (reach_intr 10 (pushes [97; 98; 99] machine_init)).
    apply (reach_intr 99 (pushes [97; 98] machine_init)).
    apply (reach_intr 98 (pushes [97] machine_init)).
    apply (reach_intr 97 machine_init). apply reach_init.
  - reflexivity.
  - repeat constructor; discriminate.
  - simpl. auto.
  - unfold INT_MAX. simpl. lia.
  - exists m'. split; assumption.
Defined.

(** ** First in, first out *)

Lemma delivered_app evs1 evs2 :
  delivered (evs1 ++ evs2) = delivered evs1 ++ delivered evs2.
Proof.
  induction evs1 as [|ev evs1 IH]; [reflexivity|].
  destruct ev; simpl; rewrite IH; reflexivity.
Qed.

Lemma read_loop_fifo killed copyout fuel : forall user_dst dst n target m m' o,
  in_uint (r (cons m)) -> in_uint (w (cons m)) ->
  read_loop killed copyout fuel user_dst dst n target m = Some (m', o) ->
  exists evs rest,
    trace m' = trace m ++ evs /\ committed m = delivered evs ++ rest.
Proof.
  assert (Hnone : forall m : machine,
            exists evs rest,
              trace m = trace m ++ evs /\ committed m = delivered evs ++ rest).
  { intros m. exists [], (committed m). now rewrite app_nil_r. }
  induction fuel as [|k IH]; intros user_dst dst n target m m' o Hr Hw Hrun;
    simpl in Hrun; destruct (n <=? 0); try discriminate;
    try (injection Hrun as <- _; apply Hnone).
  unfold read_body in Hrun.
  destruct (r (cons m) =? w (cons m)) eqn:Hrw.
  { destruct killed; injection Hrun as <- _; apply Hnone. }
  apply Z.eqb_neq in Hrw. pose proof (committed_pop m Hr Hw Hrw) as Hpop.
  destruct (getbuf m (r (cons m)) =? C chr_D).
  { injection Hrun as <- _. exists [], (committed m).
    destruct (uint n <? target); simpl; now rewrite app_nil_r. }
  destruct (negb (copyout user_dst dst)).
  { injection Hrun as <- _. eexists. exists (committed m).
    split; reflexivity. }
  destruct (getbuf m (r (cons m)) =? chr_NL).
  { injection Hrun as <- _. eexists. eexists. split; [reflexivity|].
    simpl. exact Hpop. }
  apply IH in Hrun as (evs & rest & Ht & Hcm);
    [|simpl; apply in_uint_uint|exact Hw].
  exists (EvCopyout user_dst dst (getbuf m (r (cons m))) :: evs), rest.
  split; [rewrite Ht; simpl; now rewrite <- app_assoc|].
  simpl. rewrite Hpop. f_equal. rewrite <- Hcm. now apply committed_fields.
Qed.

(** X14: whatever the length asked for, the process state and the
    fate of the copies, the bytes one run of [consoleread] copies out
    are the first committed bytes, in order: nothing is skipped,
    repeated or invented. *)
Theorem consoleread_fifo killed copyout user_dst dst n m m' o :
  ring_ok (cons m) ->
  consoleread killed copyout user_dst dst n m = Some (m', o) ->
  exists evs rest,
    trace m' = trace m ++ evs /\ committed m = delivered evs ++ rest.
Proof.
  intros (_ & Hr & Hw & _). now apply read_loop_fifo.
Qed.

Lemma consoleread_fifo_witness :
  exists m' o evs rest,
    consoleread false copy_always 1 4096 1 (pushes [97; 98; 10] machine_init)
      = Some (m', o) /\
    trace m' = trace (pushes [97; 98; 10] machine_init) ++ evs /\
    committed (pushes [97; 98; 10] machine_init) = delivered evs ++ rest.
Proof.
  destruct (consoleread_total false copy_always 1 4096 1
              (pushes [97; 98; 10] machine_init)) as (m' & o & Hrun).
  destruct (consoleread_fifo false copy_always 1 4096 1
              (pushes [97; 98; 10] machine_init) m' o) as (evs & rest & H).
  - apply reachable_ring_ok.
    apply (reach_intr 10 (pushes [97; 98] machine_init)).
    apply (reach_intr 98 (pushes [97] machine_init)).
    apply (reach_intr 97 machine_init). apply reach_init.
  - exact Hrun.
  - exists m', o, evs, rest. split; [exact Hrun|exact H].
Defined.

(** ** The value returned *)

Lemma read_loop_count killed copyout n0 fuel : forall user_dst dst k m m' o,
  0 <= k <= n0 -> n0 <= INT_MAX ->
  read_loop killed copyout fuel user_dst dst (n0 - k) (uint n0) m = Some (m', o) ->
  exists evs,
    trace m' = trace m ++ evs /\
    match o with
    | Returned ret =>
        ret = -1 \/ (ret = k + Z.of_nat (length (delivered evs)) /\ ret <= n0)
    | Asleep n' _ target' =>
        target' = uint n0 /\
        n' = n0 - (k + Z.of_nat (length (delivered evs))) /\ 0 < n'
    end.
Proof.
  induction fuel as [|f IH]; intros user_dst dst k m m' o Hk Hn0 Hrun;
    simpl in Hrun; destruct (n0 - k <=? 0) eqn:Hn; try discriminate;
    try (injection Hrun as <- <-; exists []; rewrite app_nil_r;
         split; [reflexivity|]; right; rewrite read_ret_count by lia;
         simpl; lia).
  apply Z.leb_gt in Hn. unfold read_body in Hrun.
  destruct (r (cons m) =? w (cons m)).
  { destruct killed; injection Hrun as <- <-; exists []; rewrite app_nil_r;
      (split; [reflexivity|]); [left; reflexivity|simpl; lia]. }
  destruct (getbuf m (r (cons m)) =? C chr_D).
  { injection Hrun as <- <-. exists [].
    split; [destruct (uint (n0 - k) <? uint n0); simpl; now rewrite app_nil_r|].
    right. rewrite read_ret_count by lia. simpl. lia. }
  destruct (negb (copyout user_dst dst)).
  { injection Hrun as <- <-. eexists. split; [reflexivity|].
    right. rewrite read_ret_count by lia. simpl. lia. }
  destruct (getbuf m (r (cons m)) =? chr_NL).
  { injection Hrun as <- <-. eexists. split; [reflexivity|].
    right. replace (n0 - k - 1) with (n0 - (k + 1)) by lia.
    rewrite read_ret_count by lia. simpl. lia. }
  replace (n0 - k - 1) with (n0 - (k + 1)) in Hrun by lia.
  apply IH in Hrun as (evs & Ht & Ho); [|lia|exact Hn0].
  exists (EvCopyout user_dst dst (getbuf m (r (cons m))) :: evs).
  split; [rewrite Ht; simpl; now rewrite <- app_assoc|].
  destruct o as [ret | n' dst' target']; cbn [delivered length];
    rewrite Nat2Z.inj_succ.
  - destruct Ho as [Ho | [Ho Hle]]; [auto|right; lia].
  - destruct Ho as (Ht' & Hn' & Hpos). repeat split; try assumption; lia.
Qed.

Lemma read_call_count user_dst n0 m dst n target evs m' ret :
  read_call user_dst m dst n target evs m' ret ->
  forall k, target = uint n0 -> n = n0 - k -> 0 <= k <= n0 -> n0 <= INT_MAX ->
  ret = -1 \/ (ret = k + Z.of_nat (length (delivered evs)) /\ ret <= n0).
Proof.
  induction 1 as [kl cp m dst n target m' ret evs Hrun Ht
                 | kl cp m dst n target m1 n1 dst1 target1 evs1 m2 evs2 m' ret
                     Hrun Ht _ IH];
    intros k -> -> Hk Hn0; unfold consoleread_wake in Hrun.
  - apply read_loop_count in Hrun as (evs' & Ht' & Ho); try assumption.
    rewrite Ht in Ht'. apply app_inv_head in Ht'. now subst.
  - apply read_loop_count in Hrun as (evs' & Ht' & Htarget & Hn1 & Hpos);
      try assumption.
    rewrite Ht in Ht'. apply app_inv_head in Ht'. subst evs'.
    destruct (IH (k + Z.of_nat (length (delivered evs1))) Htarget Hn1
                ltac:(lia) Hn0) as [Hret | [Hret Hle]]; [auto|].
    right. rewrite delivered_app, length_app, Nat2Z.inj_add. lia.
Qed.

(** X15: over a whole call of [consoleread(.., n)], sleeps included,
    the value returned is -1 or the number of bytes the call copied
    out, which is at most [n]. *)
Theorem consoleread_returns_count user_dst m dst n evs m' ret :
  0 <= n <= INT_MAX ->
  read_call user_dst m dst n (uint n) evs m' ret ->
  ret = -1 \/ (ret = Z.of_nat (length (delivered evs)) /\ 0 <= ret <= n).
Proof.
  intros Hn Hcall.
  destruct (read_call_count user_dst n m dst n (uint n) evs m' ret Hcall 0)
    as [Hret | [Hret Hle]]; try lia; auto.
Qed.

Lemma consoleread_returns_count_witness :
  3 = -1 \/
  (3 = Z.of_nat (length (delivered (copy_events 1 4096 [97; 98; 10]))) /\
   0 <= 3 <= 10).
Proof.
  apply (consoleread_returns_count 1
           (pushes [97; 98; 10; 99; 100; 10] machine_init) 4096 10
           (copy_events 1 4096 [97; 98; 10])
           (drain 1 4096 [97; 98; 10]
              (pushes [97; 98; 10; 99; 100; 10] machine_init)) 3).
  - unfold INT_MAX. lia.
  - apply (call_return 1 false copy_always); vm_compute; reflexivity.
Defined.

(** ** Sleeping *)




(** ** Typing a line and reading it back *)



(** ** Single keys *)

(** X18: a character of the default branch other than NUL, typed
    while the buffer has room, joins the unread bytes at the end (as a
    newline if it is a carriage return); it is committed at once,
    with all that was typed before it, if it is a newline, the
    end-of-file marker or the byte that fills the buffer, and
    otherwise it joins the line being edited. *)
Theorem typed_byte_queued c m :
  ring_ok (cons m) -> ordinary c = true -> c <> 0 ->
  uint (e (cons m) - r (cons m)) < INPUT_BUF_SIZE ->
  unread (consoleintr c m) = unread m ++ [to_char (normalize c)] /\
  if commits_after (normalize c) m
  then committed (consoleintr c m) = unread m ++ [to_char (normalize c)] /\
       uncommitted (consoleintr c m) = []
  else committed (consoleintr c m) = committed m /\
       uncommitted (consoleintr c m) = uncommitted m ++ [to_char (normalize c)].
Proof. intros Hok Hord Hc Hroom. now apply accept_queue. Qed.

Lemma typed_byte_queued_witness :
  unread (consoleintr 13 (pushes [97] machine_init))
    = unread (pushes [97] machine_init) ++ [10].
Proof.
  apply (typed_byte_queued 13 (pushes [97] machine_init)).
  - apply reachable_ring_ok. apply (reach_intr 97 machine_init). apply reach_init.
  - reflexivity.
  - discriminate.
  - vm_compute. reflexivity.
Defined.

(** X19: Backspace and Delete take the last byte off the line being
    edited and echo one erasure; on an empty line they do nothing at
    all; committed bytes are never erased. *)
Theorem backspace_erases_last c m :
  ring_ok (cons m) -> c = C chr_H \/ c = chr_DEL ->
  uncommitted (consoleintr c m) = removelast (uncommitted m) /\
  committed (consoleintr c m) = committed m /\
  trace (consoleintr c m) = trace m ++ match uncommitted m with
                                       | [] => []
                                       | _ :: _ => echo BACKSPACE
                                       end.
Proof. intros Hok Hc. now apply backspace_queue. Qed.

Lemma backspace_erases_last_witness :
  uncommitted (consoleintr chr_DEL (pushes [97; 10; 98] machine_init)) = [] /\
  committed (consoleintr chr_DEL (pushes [97; 10; 98] machine_init)) = [97; 10].
Proof.
  destruct (backspace_erases_last chr_DEL (pushes [97; 10; 98] machine_init))
    as (Hunc & Hcm & _).
  - apply reachable_ring_ok.
    apply (reach_intr 98 (pushes [97; 10] machine_init)).
    apply (reach_intr 10 (pushes [97] machine_init)).
    apply (reach_intr 97 machine_init). apply reach_init.
  - auto.
  - rewrite Hunc, Hcm. split; reflexivity.
Defined.

(** X20: in any well-formed ring, Ctrl-U cuts the line being edited
    back to just after its last newline, or entirely if it holds
    none, echoes one erasure per byte cut and leaves the committed
    bytes alone. *)
Theorem kill_line_cuts_after_newline m :
  ring_ok (cons m) ->
  exists keep erased,
    uncommitted m = keep ++ erased /\
    uncommitted (consoleintr (C chr_U) m) = keep /\
    Forall (fun c => c <> chr_NL) erased /\
    (keep = [] \/ exists keep', keep = keep' ++ [chr_NL]) /\
    trace (consoleintr (C chr_U) m) = trace m ++ erase_echo (length erased) /\
    committed (consoleintr (C chr_U) m) = committed m.
Proof. intros Hok. now apply kill_queue. Qed.

Lemma kill_line_cuts_after_newline_witness :
  exists keep erased,
    uncommitted (pushes [97; 10; 98; 99] machine_init) = keep ++ erased /\
    uncommitted (consoleintr (C chr_U) (pushes [97; 10; 98; 99] machine_init))
      = keep.
Proof.
  destruct (kill_line_cuts_after_newline (pushes [97; 10; 98; 99] machine_init))
    as (keep & erased & Hsplit & Hres & _).
  - apply reachable_ring_ok.
    apply (reach_intr 99 (pushes [97; 10; 98] machine_init)).
    apply (reach_intr 98 (pushes [97; 10] machine_init)).
    apply (reach_intr 10 (pushes [97] machine_init)).
    apply (reach_intr 97 machine_init). apply reach_init.
  - exists keep, erased. split; assumption.
Defined.

(** X21: the keys the switch handles itself (Ctrl-P, Ctrl-U,
    Backspace, Delete) are never stored in the buffer, never move
    [cons.r] or [cons.w] and never wake the reader. *)
Theorem control_keys_not_stored c m :
  ordinary c = false ->
  exists evs,
    trace (consoleintr c m) = trace m ++ evs /\ wakeups evs = O /\
    buf (cons (consoleintr c m)) = buf (cons m) /\
    r (cons (consoleintr c m)) = r (cons m) /\
    w (cons (consoleintr c m)) = w (cons m).
Proof. apply control_frame. Qed.

Lemma control_keys_not_stored_witness :
  buf (cons (consoleintr (C chr_P) (pushes [97] machine_init)))
    = buf (cons (pushes [97] machine_init)).
Proof.
  destruct (control_keys_not_stored (C chr_P) (pushes [97] machine_init) eq_refl)
    as (evs & _ & _ & Hb & _).
  exact Hb.
Defined.
